(** * DesignCube: the inventory and sales ledger of [DesignCubeApp/app.js]

    A shallow embedding of the script [app.js] and the properties of its
    ledger: loading the two collections, recording sales, the dashboard
    summary and the per-category product tables.

    Conventions of the embedding.
    - A JavaScript number is a double.  The model has the whole numbers and
      [NaN]: [Fin z] is the double that holds the whole number [z], which
      there is for every [z] from -2^53 to 2^53 ([Num.safe]).  On these the
      sum, the difference and the product of the doubles are the ones of
      the whole numbers as long as the result is among them too, and the
      numeral that [ToString], [toFixed] and [JSON.stringify] write is the
      decimal one.  Fractions, the infinities and whole numbers beyond this
      range have no value in the model, and [-0] is not told apart from
      [0]; a property that rests on the result of an addition, a
      subtraction or a multiplication says by a hypothesis [safe] that the
      numbers stay in the range.
    - A property of an object that may be absent has an [option] type:
      [None] is the value [undefined] that reading it gives.
    - Strings are byte strings; [toLowerCase] acts on the letters A-Z, which
      is all that a comparison with ['tile'] or ['sanitary'] can observe.
    - The globals [products] and [sales], [localStorage] and the page are the
      fields of one record [World], threaded through every function.  The
      page is taken to have the elements the script asks for.
    - [showSection] and [toggleSalesTab] act on a [Screen]: the elements
      whose [style.display] they set, around the world. *)

From Stdlib Require Import Ascii.
From stdpp Require Import base numbers list strings gmap pretty.

Local Open Scope Z_scope.

(** ** JavaScript numbers *)

Module Num.

Inductive number : Type :=
| Fin (z : Z)
| NaN.

Global Instance number_eq_dec : EqDecision number.
Proof. solve_decision. Defined.

(** The whole numbers from -2^53 to 2^53.  Each of them is a double, and
    the sum, the difference or the product of two doubles that is one of
    them is computed without rounding. *)
Definition safe (z : Z) : Prop := -9007199254740992 ≤ z ≤ 9007199254740992.

Global Instance safe_dec z : Decision (safe z).
Proof. unfold safe. apply _. Defined.

(** [a + b], [a - b], [a * b] where operands and result are [safe]; beyond,
    the doubles round and the whole numbers written here do not. *)
Definition add (a b : number) : number :=
  match a, b with
  | Fin x, Fin y => Fin (x + y)
  | _, _ => NaN
  end.

Definition sub (a b : number) : number :=
  match a, b with
  | Fin x, Fin y => Fin (x - y)
  | _, _ => NaN
  end.

Definition mul (a b : number) : number :=
  match a, b with
  | Fin x, Fin y => Fin (x * y)
  | _, _ => NaN
  end.

(** [a > b], [a <= b], [a >= b]: every comparison with [NaN] is false. *)
Definition gt (a b : number) : bool :=
  match a, b with
  | Fin x, Fin y => bool_decide (y < x)
  | _, _ => false
  end.

Definition le (a b : number) : bool :=
  match a, b with
  | Fin x, Fin y => bool_decide (x <= y)
  | _, _ => false
  end.

Definition ge (a b : number) : bool := le b a.

(** [a === b] on numbers: [NaN] is not equal to itself. *)
Definition strict_eq (a b : number) : bool :=
  match a, b with
  | Fin x, Fin y => bool_decide (x = y)
  | _, _ => false
  end.

(** ToBoolean: [0] and [NaN] are falsy. *)
Definition truthy (a : number) : bool :=
  match a with
  | Fin z => bool_decide (z ≠ 0)
  | NaN => false
  end.

(** ToNumber of a numeric property that may be absent:
    [undefined] converts to [NaN]. *)
Definition ToNumber (v : option number) : number :=
  match v with
  | Some n => n
  | None => NaN
  end.

(** [v || 0] *)
Definition or_zero (v : option number) : number :=
  match v with
  | Some n => if truthy n then n else Fin 0
  | None => Fin 0
  end.

(** ToString, as a template literal or string concatenation applies it:
    the decimal numeral, which is what a whole number below 10^21 in size
    is written as. *)
Definition ToString (a : number) : string :=
  match a with
  | Fin z => pretty z
  | NaN => "NaN"
  end.

(** [a.toFixed(2)] on a whole number below 10^21 in size. *)
Definition toFixed2 (a : number) : string :=
  match a with
  | Fin z => pretty z +:+ ".00"
  | NaN => "NaN"
  end.

End Num.

Import Num.

(** ** Strings *)

(** The answer of [prompt]: [null] when the dialog is dismissed. *)
Inductive answer : Type :=
| Cancel
| Text (s : string).

(** [field === serial] for a property holding a string or [undefined] and a
    prompt answer: [undefined === null] and [string === null] are false. *)
Definition strict_eq_answer (field : option string) (a : answer) : Prop :=
  match field, a with
  | Some x, Text y => x = y
  | _, _ => False
  end.

Global Instance strict_eq_answer_dec field a : Decision (strict_eq_answer field a).
Proof. destruct field, a; simpl; apply _. Defined.

Definition lower_ascii (c : ascii) : ascii :=
  let n := N_of_ascii c in
  if bool_decide (65 <= n <= 90)%N then ascii_of_N (n + 32) else c.

Fixpoint toLowerCase (s : string) : string :=
  match s with
  | EmptyString => EmptyString
  | String c r => String (lower_ascii c) (toLowerCase r)
  end.

(** ** The data model *)

Module Product.
Record t : Type := mk {
  serial : option string;
  type : option string;
  brand : option string;
  name : option string;
  size : option string;
  numBoxes : option number;
  numPieces : option number;
  pricePerBox : option number;
  stock : option number;
}.

Global Instance eq_dec : EqDecision t.
Proof. solve_decision. Defined.

(** [p.stock = v] *)
Definition set_stock (v : number) (p : t) : t :=
  mk (serial p) (type p) (brand p) (name p) (size p)
     (numBoxes p) (numPieces p) (pricePerBox p) (Some v).
End Product.

Module Sale.
Record t : Type := mk {
  serial : option string;
  name : option string;
  quantity : option number;
  total : option number;
  date : option string;
  type : option string;
}.

Global Instance eq_dec : EqDecision t.
Proof. solve_decision. Defined.
End Sale.

(** The script's globals together with the browser state it reads and
    writes.  [document] maps an element (by id or selector) to the pieces
    that were assigned or appended to it, oldest first. *)
Record World : Type := mkWorld {
  products : list Product.t;
  sales : list Sale.t;
  localStorage : gmap string string;
  document : gmap string (list string);
}.

Definition set_products (ps : list Product.t) (w : World) : World :=
  mkWorld ps (sales w) (localStorage w) (document w).
Definition set_sales (ss : list Sale.t) (w : World) : World :=
  mkWorld (products w) ss (localStorage w) (document w).
Definition set_localStorage (m : gmap string string) (w : World) : World :=
  mkWorld (products w) (sales w) m (document w).
Definition set_document (d : gmap string (list string)) (w : World) : World :=
  mkWorld (products w) (sales w) (localStorage w) d.

(** ** New sale entry: the body of the loop of [prepareNewSales] *)

Inductive Outcome : Type :=
| InvalidSale               (* alert('Invalid serial or insufficient stock') *)
| Recorded (s : Sale.t).

(** [products.find(p => p.serial === serial)], with the index of the match *)
Definition find_product (serial : answer) (ps : list Product.t)
  : option (nat * Product.t) :=
  list_find (λ p, strict_eq_answer (Product.serial p) serial) ps.

Definition answer_value (a : answer) : option string :=
  match a with
  | Text s => Some s
  | Cancel => None
  end.

Definition recordSale (serial : answer) (quantity : number) (date : string)
    (w : World) : Outcome * World :=
  match find_product serial (products w) with
  | None => (InvalidSale, w)
  | Some (i, product) =>
      if gt quantity (ToNumber (Product.stock product)) then (InvalidSale, w)
      else
        let product' :=
          Product.set_stock (sub (ToNumber (Product.stock product)) quantity) product in
        let total := mul (or_zero (Product.pricePerBox product)) quantity in
        let sale :=
          Sale.mk (answer_value serial) (Product.name product) (Some quantity)
                  (Some total) (Some date) (Product.type product) in
        (Recorded sale,
         set_sales (sales w ++ [sale]) (set_products (<[i := product']> (products w)) w))
  end.

(** The answers given to the dialogs of one turn of the loop: the two
    prompts (the second already passed through [Number]), the date read from
    the clock, and the answer to the closing [confirm]. *)
Module Entry.
Record t : Type := mk {
  serial : answer;
  quantity : number;
  date : string;
  more : bool;
}.
End Entry.

(** [while (more) { ... }]: the loop runs as long as [confirm] is answered
    with yes.  [None]: the answers ran out while a dialog was still open. *)
Fixpoint salesLoop (script : list Entry.t) (w : World) : option World :=
  match script with
  | [] => None
  | e :: rest =>
      let w' := (recordSale (Entry.serial e) (Entry.quantity e) (Entry.date e) w).2 in
      if Entry.more e then salesLoop rest w' else Some w'
  end.

(** ** Text of a page *)

Definition nl : string := String "010" EmptyString.

(** [${v}] for a string property that may be absent *)
Definition show (v : option string) : string :=
  match v with
  | Some s => s
  | None => "undefined"
  end.

(** [${v}] for a numeric property that may be absent *)
Definition show_number (v : option number) : string :=
  match v with
  | Some n => ToString n
  | None => "undefined"
  end.

(** [v || '-'] *)
Definition or_dash (v : option string) : string :=
  match v with
  | Some EmptyString => "-"
  | Some s => s
  | None => "-"
  end.

(** [v?.toLowerCase()] *)
Definition lower (v : option string) : option string := toLowerCase <$> v.

(** [el.innerHTML = ''], [el.textContent = s], and [el.innerHTML += s] or
    [el.appendChild(li)] with [s] the text of the item. *)
Definition clear (el : string) (w : World) : World :=
  set_document (<[el := []]> (document w)) w.
Definition set_text (el s : string) (w : World) : World :=
  set_document (<[el := [s]]> (document w)) w.
Definition append (el s : string) (w : World) : World :=
  set_document (<[el := default [] (document w !! el) ++ [s]]> (document w)) w.

(** ** Dashboard summary *)

Definition totalStock (ps : list Product.t) : number :=
  fold_left (λ sum p, add sum (or_zero (Product.stock p))) ps (Fin 0).

Definition totalSales (ss : list Sale.t) : number :=
  fold_left (λ sum s, add sum (or_zero (Sale.total s))) ss (Fin 0).

Definition lowStock (ps : list Product.t) : list Product.t :=
  filter (λ p, le (or_zero (Product.stock p)) (Fin 5) = true) ps.

Definition lowStockItem (p : Product.t) : string :=
  show (Product.name p) +:+ " - Stock: " +:+ ToString (or_zero (Product.stock p)).

Definition updateDashboard (w : World) : World :=
  let w := set_text "total-products" (ToString (Fin (Z.of_nat (length (products w))))) w in
  let w := set_text "total-stock" (ToString (totalStock (products w))) w in
  let w := set_text "total-sales" (toFixed2 (totalSales (sales w))) w in
  let w := clear "low-stock-ul" w in
  fold_left (λ w p, append "low-stock-ul" (lowStockItem p) w) (lowStock (products w)) w.

(** The four values the dashboard derives from the ledger. *)
Record Summary : Type := mkSummary {
  productCount : nat;
  totalStockUnits : number;
  totalSalesValue : number;
  lowStockProducts : list Product.t;
}.

Definition aggregateSummary (w : World) : Summary :=
  mkSummary (length (products w)) (totalStock (products w))
            (totalSales (sales w)) (lowStock (products w)).

(** ** Product tables *)

Definition is_tile (p : Product.t) : Prop := lower (Product.type p) = Some "tile".
Definition is_sanitary (p : Product.t) : Prop := lower (Product.type p) = Some "sanitary".
(** [!['tile', 'sanitary'].includes(p.type?.toLowerCase())] *)
Definition is_other (p : Product.t) : Prop :=
  lower (Product.type p) ∉ [Some "tile"; Some "sanitary"].

Global Instance is_tile_dec p : Decision (is_tile p).
Proof. unfold is_tile. apply _. Defined.
Global Instance is_sanitary_dec p : Decision (is_sanitary p).
Proof. unfold is_sanitary. apply _. Defined.
Global Instance is_other_dec p : Decision (is_other p).
Proof. unfold is_other. apply _. Defined.

Definition tiles (ps : list Product.t) : list Product.t := filter is_tile ps.
Definition sanitary (ps : list Product.t) : list Product.t := filter is_sanitary ps.
Definition others (ps : list Product.t) : list Product.t := filter is_other ps.

(** [(p.numBoxes || 0) * (p.pricePerBox || 0)] *)
Definition total (p : Product.t) : number :=
  mul (or_zero (Product.numBoxes p)) (or_zero (Product.pricePerBox p)).

Definition td (s : string) : string := "<td>" +:+ s +:+ "</td>".
Definition rupees (n : number) : string := "₹" +:+ toFixed2 n.

Definition tileRow (p : Product.t) : string :=
  nl +:+ "      <tr>" +:+ nl +:+ "        "
  +:+ td (show (Product.serial p)) +:+ td (show (Product.brand p))
  +:+ td (show (Product.name p)) +:+ td (or_dash (Product.size p))
  +:+ nl +:+ "        "
  +:+ td (ToString (or_zero (Product.numBoxes p)))
  +:+ td (ToString (or_zero (Product.numPieces p)))
  +:+ nl +:+ "        "
  +:+ td (rupees (or_zero (Product.pricePerBox p))) +:+ td (rupees (total p))
  +:+ nl +:+ "      </tr>".

Definition sanitaryRow (p : Product.t) : string :=
  nl +:+ "      <tr>" +:+ nl +:+ "        "
  +:+ td (show (Product.serial p)) +:+ td (show (Product.brand p))
  +:+ td (show (Product.name p))
  +:+ nl +:+ "        "
  +:+ td (ToString (or_zero (Product.numBoxes p)))
  +:+ td (ToString (or_zero (Product.numPieces p)))
  +:+ nl +:+ "        "
  +:+ td (rupees (or_zero (Product.pricePerBox p))) +:+ td (rupees (total p))
  +:+ nl +:+ "      </tr>".

Definition otherRow (p : Product.t) : string :=
  nl +:+ "      <tr>" +:+ nl +:+ "        "
  +:+ td (show (Product.serial p)) +:+ td (show (Product.type p))
  +:+ td (show (Product.brand p)) +:+ td (show (Product.name p))
  +:+ nl +:+ "        "
  +:+ td (or_dash (Product.size p))
  +:+ td (ToString (or_zero (Product.numBoxes p)))
  +:+ td (ToString (or_zero (Product.numPieces p)))
  +:+ nl +:+ "        "
  +:+ td (rupees (or_zero (Product.pricePerBox p))) +:+ td (rupees (total p))
  +:+ nl +:+ "      </tr>".

(** The common shape of the three renderers: empty the table body, then
    append one row for each product of the listing. *)
Definition renderTable (tbody : string) (row : Product.t → string)
    (listing : list Product.t) (w : World) : World :=
  fold_left (λ w p, append tbody (row p) w) listing (clear tbody w).

Definition renderTilesTable (w : World) : World :=
  renderTable "#tiles-table tbody" tileRow (tiles (products w)) w.
Definition renderSanitaryTable (w : World) : World :=
  renderTable "#sanitary-table tbody" sanitaryRow (sanitary (products w)) w.
Definition renderOthersTable (w : World) : World :=
  renderTable "#others-table tbody" otherRow (others (products w)) w.

(** ** Exceptions *)

Inductive Error : Type :=
| TypeError
| SyntaxError.

Inductive Completion (A : Type) : Type :=
| Normal (a : A)
| Throw (e : Error).
Arguments Normal {A} a.
Arguments Throw {A} e.

Global Instance Completion_ret : MRet Completion := λ A a, Normal a.
Global Instance Completion_bind : MBind Completion := λ A B k c,
  match c with
  | Normal a => k a
  | Throw e => Throw e
  end.

(** ** Sales tables *)

(** [s.total.toFixed(2)]: reading a property of [undefined] throws. *)
Definition saleRow (s : Sale.t) : Completion string :=
  match Sale.total s with
  | None => Throw TypeError
  | Some total =>
      Normal ("<tr>" +:+ td (show (Sale.serial s)) +:+ td (show (Sale.name s))
              +:+ td (show_number (Sale.quantity s)) +:+ td (rupees total)
              +:+ td (show (Sale.date s)) +:+ "</tr>")
  end.

(** [map[type]] for the object literal with the keys [tile], [sanitary] and
    [others]: the table body to append to, when the lookup gives one.  The
    lookup also finds what the literal inherits: of the names a lower-cased
    string can spell these are [constructor] and [__proto__], both truthy and
    neither a table body, so that the row is appended to no table.  Any other
    key, and [undefined], gives [undefined] and the row goes to the others. *)
Definition salesTab (type : option string) : option string :=
  match type with
  | Some "tile" => Some "#sales-tiles tbody"
  | Some "sanitary" => Some "#sales-sanitary tbody"
  | Some "constructor" | Some "__proto__" => None
  | _ => Some "#sales-others tbody"
  end.

(** A world carried through statements of which one may throw: what was
    written before the exception stays written. *)
Fixpoint forEach {A} (f : A → World → World * option Error) (l : list A)
    (w : World) : World * option Error :=
  match l with
  | [] => (w, None)
  | x :: rest =>
      match f x w with
      | (w', None) => forEach f rest w'
      | thrown => thrown
      end
  end.

Definition renderSalesTabs (w : World) : World * option Error :=
  let w := clear "#sales-tiles tbody" w in
  let w := clear "#sales-sanitary tbody" w in
  let w := clear "#sales-others tbody" w in
  forEach (λ s w,
    match saleRow s with
    | Throw e => (w, Some e)
    | Normal row =>
        match salesTab (lower (Sale.type s)) with
        | Some tbody => (append tbody row w, None)
        | None => (w, None)
        end
    end) (sales w) w.

Definition renderSalesHistoryTable (w : World) : World * option Error :=
  let w := clear "#sales-table tbody" w in
  forEach (λ s w,
    match saleRow s with
    | Throw e => (w, Some e)
    | Normal row => (append "#sales-table tbody" row w, None)
    end) (sales w) w.

(** ** JSON *)

Module JSON.

Definition quote : ascii := "034".
Definition backslash : ascii := "092".

Definition hex_digit (n : N) : ascii :=
  if bool_decide (n < 10)%N then ascii_of_N (48 + n) else ascii_of_N (87 + n).

(** QuoteJSONString, character by character *)
Definition escape (c : ascii) : string :=
  let n := N_of_ascii c in
  if bool_decide (c = quote) then String backslash (String quote EmptyString)
  else if bool_decide (c = backslash) then String backslash (String backslash EmptyString)
  else if bool_decide (n = 8)%N then String backslash "b"
  else if bool_decide (n = 12)%N then String backslash "f"
  else if bool_decide (n = 10)%N then String backslash "n"
  else if bool_decide (n = 13)%N then String backslash "r"
  else if bool_decide (n = 9)%N then String backslash "t"
  else if bool_decide (n < 32)%N then
    String backslash ("u00" +:+ String (hex_digit (n `div` 16)) (String (hex_digit (n `mod` 16)) EmptyString))
  else String c EmptyString.

Fixpoint escape_all (s : string) : string :=
  match s with
  | EmptyString => EmptyString
  | String c r => escape c +:+ escape_all r
  end.

Definition string_text (s : string) : string :=
  String quote (escape_all s) +:+ String quote EmptyString.

(** A number that is not finite is written [null]. *)
Definition number_text (n : number) : string :=
  match n with
  | Fin z => pretty z
  | NaN => "null"
  end.

(** One property of an object; a property whose value is [undefined] is
    left out. *)
Definition property {A} (text : A → string) (key : string) (v : option A)
  : list string :=
  match v with
  | Some a => [string_text key +:+ ":" +:+ text a]
  | None => []
  end.

Fixpoint join (sep : string) (l : list string) : string :=
  match l with
  | [] => EmptyString
  | [x] => x
  | x :: rest => x +:+ sep +:+ join sep rest
  end.

Definition object_text (properties : list string) : string :=
  "{" +:+ join "," properties +:+ "}".
Definition array_text (elements : list string) : string :=
  "[" +:+ join "," elements +:+ "]".

Definition product_text (p : Product.t) : string :=
  object_text
    (property string_text "serial" (Product.serial p)
     ++ property string_text "type" (Product.type p)
     ++ property string_text "brand" (Product.brand p)
     ++ property string_text "name" (Product.name p)
     ++ property string_text "size" (Product.size p)
     ++ property number_text "numBoxes" (Product.numBoxes p)
     ++ property number_text "numPieces" (Product.numPieces p)
     ++ property number_text "pricePerBox" (Product.pricePerBox p)
     ++ property number_text "stock" (Product.stock p)).

Definition sale_text (s : Sale.t) : string :=
  object_text
    (property string_text "serial" (Sale.serial s)
     ++ property string_text "name" (Sale.name s)
     ++ property number_text "quantity" (Sale.quantity s)
     ++ property number_text "total" (Sale.total s)
     ++ property string_text "date" (Sale.date s)
     ++ property string_text "type" (Sale.type s)).

(** [JSON.stringify(products)] and [JSON.stringify(sales)].  The properties
    of an object are written in the order of the record: that is the order
    in which line 168 gives a sale its properties; the order in which a
    product got its own is not kept by the record, and no value that is
    read back depends on it. *)
Definition stringify_products (ps : list Product.t) : string :=
  array_text (product_text <$> ps).
Definition stringify_sales (ss : list Sale.t) : string :=
  array_text (sale_text <$> ss).

(** *** Parsing *)

#[local] Set Warnings "-register-all".
Inductive value : Type :=
| Null
| Bool (b : bool)
| Number (mantissa exponent : Z)      (* mantissa * 10 ^ exponent *)
| Str (s : string)
| Array (elements : list value)
| Object (members : list (string * value)).

Definition is_ws (c : ascii) : bool :=
  bool_decide (N_of_ascii c ∈ [32; 9; 10; 13]%N).

Fixpoint skip_ws (s : string) : string :=
  match s with
  | String c r => if is_ws c then skip_ws r else s
  | EmptyString => s
  end.

Definition digit (c : ascii) : option Z :=
  let n := N_of_ascii c in
  if bool_decide (48 <= n <= 57)%N then Some (Z.of_N n - 48) else None.

Definition hex (c : ascii) : option N :=
  let n := N_of_ascii c in
  if bool_decide (48 <= n <= 57)%N then Some (n - 48)%N
  else if bool_decide (65 <= n <= 70)%N then Some (n - 55)%N
  else if bool_decide (97 <= n <= 102)%N then Some (n - 87)%N
  else None.

(** The bytes (UTF-8) of the code unit written [\uXXXX]. *)
Definition code_unit (n : N) : string :=
  if bool_decide (n < 128)%N then String (ascii_of_N n) EmptyString
  else if bool_decide (n < 2048)%N then
    String (ascii_of_N (192 + n `div` 64)) (String (ascii_of_N (128 + n `mod` 64)) EmptyString)
  else
    String (ascii_of_N (224 + n `div` 4096))
      (String (ascii_of_N (128 + (n `div` 64) `mod` 64))
         (String (ascii_of_N (128 + n `mod` 64)) EmptyString)).

Definition escaped (c : ascii) : option string :=
  if bool_decide (c = quote) then Some (String quote EmptyString)
  else if bool_decide (c = backslash) then Some (String backslash EmptyString)
  else if bool_decide (c = "/"%char) then Some "/"
  else if bool_decide (c = "b"%char) then Some (String "008" EmptyString)
  else if bool_decide (c = "f"%char) then Some (String "012" EmptyString)
  else if bool_decide (c = "n"%char) then Some (String "010" EmptyString)
  else if bool_decide (c = "r"%char) then Some (String "013" EmptyString)
  else if bool_decide (c = "t"%char) then Some (String "009" EmptyString)
  else None.

(** The characters of a string after its opening quote, up to and
    including the closing one. *)
Fixpoint string_body (s : string) : option (string * string) :=
  match s with
  | EmptyString => None
  | String c r =>
      if bool_decide (c = quote) then Some (EmptyString, r)
      else if bool_decide (c = backslash) then
        match r with
        | String "u" (String a (String b (String c (String d r')))) =>
            x3 ← hex a; x2 ← hex b; x1 ← hex c; x0 ← hex d;
            '(v, rest) ← string_body r';
            Some (code_unit (((x3 * 16 + x2) * 16 + x1) * 16 + x0)%N +:+ v, rest)
        | String e r' =>
            u ← escaped e;
            '(v, rest) ← string_body r';
            Some (u +:+ v, rest)
        | EmptyString => None
        end
      else if bool_decide (N_of_ascii c < 32)%N then None
      else '(v, rest) ← string_body r; Some (String c v, rest)
  end.

(** [digits acc n s]: the digits at the head of [s], appended to the
    numeral [acc]; [n] counts them. *)
Fixpoint digits (acc : Z) (n : nat) (s : string) : Z * nat * string :=
  match s with
  | String c r =>
      match digit c with
      | Some d => digits (10 * acc + d) (S n) r
      | None => (acc, n, s)
      end
  | EmptyString => (acc, n, s)
  end.

(** The integer part: a single [0], or digits that start with 1-9. *)
Definition int_part (s : string) : option (Z * string) :=
  match s with
  | String "0" r => Some (0, r)
  | _ =>
      let '(m, n, r) := digits 0 0 s in
      if bool_decide (n = 0%nat) then None else Some (m, r)
  end.

Definition frac_part (m : Z) (s : string) : option (Z * Z * string) :=
  match s with
  | String "." r =>
      let '(m', n, r') := digits m 0 r in
      if bool_decide (n = 0%nat) then None else Some (m', - Z.of_nat n, r')
  | _ => Some (m, 0, s)
  end.

Definition exp_part (s : string) : option (Z * string) :=
  let signed (sign : Z) (r : string) :=
    let '(e, n, r') := digits 0 0 r in
    if bool_decide (n = 0%nat) then None else Some (sign * e, r') in
  match s with
  | String c r =>
      if bool_decide (c = "e"%char ∨ c = "E"%char) then
        match r with
        | String "+" r' => signed 1 r'
        | String "-" r' => signed (-1) r'
        | _ => signed 1 r
        end
      else Some (0, s)
  | EmptyString => Some (0, s)
  end.

Definition parse_number (s : string) : option (value * string) :=
  let '(sign, s) :=
    match s with
    | String "-" r => (-1, r)
    | _ => (1, s)
    end in
  '(m, s) ← int_part s;
  '(m, e1, s) ← frac_part m s;
  '(e2, s) ← exp_part s;
  Some (Number (sign * m) (e1 + e2), s).

Definition literal (word : string) (v : value) (s : string)
  : option (value * string) :=
  if bool_decide (String.prefix word s = true)
  then Some (v, String.substring (String.length word) (String.length s - String.length word) s)
  else None.

Fixpoint parse_value (fuel : nat) (s : string) : option (value * string) :=
  match fuel with
  | O => None
  | S fuel =>
      match skip_ws s with
      | String "n" _ as s => literal "null" Null s
      | String "t" _ as s => literal "true" (Bool true) s
      | String "f" _ as s => literal "false" (Bool false) s
      | String "[" r =>
          match skip_ws r with
          | String "]" r' => Some (Array [], r')
          | r => '(vs, rest) ← parse_elements fuel r; Some (Array vs, rest)
          end
      | String "{" r =>
          match skip_ws r with
          | String "}" r' => Some (Object [], r')
          | r => '(ms, rest) ← parse_members fuel r; Some (Object ms, rest)
          end
      | String c r as s =>
          if bool_decide (c = quote)
          then '(v, rest) ← string_body r; Some (Str v, rest)
          else parse_number s
      | EmptyString => None
      end
  end
with parse_elements (fuel : nat) (s : string) : option (list value * string) :=
  match fuel with
  | O => None
  | S fuel =>
      '(v, r) ← parse_value fuel s;
      match skip_ws r with
      | String "," r' => '(vs, rest) ← parse_elements fuel r'; Some (v :: vs, rest)
      | String "]" r' => Some ([v], r')
      | _ => None
      end
  end
with parse_members (fuel : nat) (s : string)
  : option (list (string * value) * string) :=
  match fuel with
  | O => None
  | S fuel =>
      match skip_ws s with
      | String c r =>
          if bool_decide (c = quote) then
            '(k, r) ← string_body r;
            match skip_ws r with
            | String ":" r =>
                '(v, r) ← parse_value fuel r;
                match skip_ws r with
                | String "," r' =>
                    '(ms, rest) ← parse_members fuel r'; Some ((k, v) :: ms, rest)
                | String "}" r' => Some ([(k, v)], r')
                | _ => None
                end
            | _ => None
            end
          else None
      | EmptyString => None
      end
  end.

(** [JSON.parse(text)]: one value, with nothing but white space around it. *)
Definition parse (text : string) : Completion value :=
  match parse_value (2 * String.length text + 2) text with
  | Some (v, rest) =>
      match skip_ws rest with
      | EmptyString => Normal v
      | _ => Throw SyntaxError
      end
  | None => Throw SyntaxError
  end.

(** ToBoolean of a parsed value.  A numeral is falsy when the double it is
    read as is zero: when its digits are all zero, or when it is so small
    that it rounds to zero, which it does up to 2^-1075. *)
Definition truthy (v : value) : bool :=
  match v with
  | Null => false
  | Bool b => b
  | Number m e =>
      bool_decide (m ≠ 0 ∧ (0 ≤ e ∨ 10 ^ (- e) < Z.abs m * 2 ^ 1075))
  | Str s => bool_decide (s ≠ EmptyString)
  | Array _ | Object _ => true
  end.

End JSON.

(** ** Loading and saving *)

(** [JSON.parse(localStorage.getItem(key)) || []]: [getItem] gives [null] for
    a key that was never set, and [JSON.parse] reads [null] as the text
    ['null']. *)
Definition load (key : string) (storage : gmap string string)
  : Completion JSON.value :=
  v ← JSON.parse (default "null" (storage !! key));
  mret (if JSON.truthy v then v else JSON.Array []).

(** The first two statements of the script. *)
Definition initialize (storage : gmap string string)
  : Completion (JSON.value * JSON.value) :=
  products ← load "products" storage;
  sales ← load "sales" storage;
  mret (products, sales).

(** The two [localStorage.setItem] calls; the store is taken to accept them. *)
Definition flush (w : World) : World :=
  let storage := <["products" := JSON.stringify_products (products w)]> (localStorage w) in
  set_localStorage (<["sales" := JSON.stringify_sales (sales w)]> storage) w.

(** [prepareNewSales(type)]; [type] only appears in the text of the prompt. *)
Definition prepareNewSales (type : string) (script : list Entry.t) (w : World)
  : option (World * option Error) :=
  w ← salesLoop script w;
  let w := flush w in
  Some match renderSalesTabs w with
       | (w, None) =>
           match renderSalesHistoryTable w with
           | (w, None) => (updateDashboard w, None)
           | thrown => thrown
           end
       | thrown => thrown
       end.

(** * Vocabulary of the properties *)

(** The number a figure of the ledger stands for; zero when the figure is
    missing or is not a number. *)
Definition amount (v : option number) : Z :=
  match v with
  | Some (Fin z) => z
  | _ => 0
  end.

Definition Zsum (l : list Z) : Z := foldr Z.add 0 l.

(** [p'] is [p] up to its stock. *)
Definition same_but_stock (p p' : Product.t) : Prop :=
  Product.serial p' = Product.serial p ∧ Product.type p' = Product.type p ∧
  Product.brand p' = Product.brand p ∧ Product.name p' = Product.name p ∧
  Product.size p' = Product.size p ∧ Product.numBoxes p' = Product.numBoxes p ∧
  Product.numPieces p' = Product.numPieces p ∧
  Product.pricePerBox p' = Product.pricePerBox p.

(** A run of calls for one serial, each given by its quantity and date. *)
Definition sell (serial : answer) (w : World) (call : number * string) : World :=
  (recordSale serial call.1 call.2 w).2.

Definition recorded (serial : answer) (w : World) (call : number * string) : Prop :=
  ∃ sale, (recordSale serial call.1 call.2 w).1 = Recorded sale.

Fixpoint successful (serial : answer) (calls : list (number * string)) (w : World)
  : Prop :=
  match calls with
  | [] => True
  | call :: rest => recorded serial w call ∧ successful serial rest (sell serial w call)
  end.

(** The stock, as a number, of the product at position [i]. *)
Definition stock_at (i : nat) (w : World) : number :=
  ToNumber (products w !! i ≫= Product.stock).

(** JavaScript's sum of the quantities of a run. *)
Definition sold (calls : list (number * string)) : number :=
  fold_left (λ sum call, add sum call.1) calls (Fin 0).

(** The stock law read on JavaScript's numbers: at every point of a run of
    recorded sales of the product found for [serial], its stock [===] the
    initial stock less the quantities sold so far, and [stock >= 0]. *)
Definition stock_law (serial : answer) (calls : list (number * string)) (w : World)
  : Prop :=
  ∀ i p, find_product serial (products w) = Some (i, p) →
    successful serial calls w →
    ∀ k, let w' := fold_left (sell serial) (take k calls) w in
      strict_eq (stock_at i w') (sub (stock_at i w) (sold (take k calls))) = true ∧
      ge (stock_at i w') (Fin 0) = true.

(** The store holds the text of the two collections as they are now. *)
Definition flushed (w : World) : Prop :=
  localStorage w !! "products" = Some (JSON.stringify_products (products w)) ∧
  localStorage w !! "sales" = Some (JSON.stringify_sales (sales w)).

(** The answers of a dialog that comes to its end: yes to every [confirm]
    but the last. *)
Definition session (script : list Entry.t) : Prop :=
  ∃ turns last, script = turns ++ [last] ∧
    Forall (λ e, Entry.more e = true) turns ∧ Entry.more last = false.

(** The letters, each capital with its small letter. *)
Definition letters : list (ascii * ascii) :=
  zip (String.list_ascii_of_string "ABCDEFGHIJKLMNOPQRSTUVWXYZ")
      (String.list_ascii_of_string "abcdefghijklmnopqrstuvwxyz").

(** Two characters that are the same, or the capital and the small form of
    one letter. *)
Definition same_letter (c d : ascii) : Prop :=
  c = d ∨ (c, d) ∈ letters ∨ (d, c) ∈ letters.

Global Instance same_letter_dec c d : Decision (same_letter c d).
Proof. unfold same_letter. apply _. Defined.

(** Two strings that are equal when the case of their letters is ignored:
    they have the same length and, place by place, the same letter. *)
Fixpoint equal_ignoring_case (a b : string) : Prop :=
  match a, b with
  | EmptyString, EmptyString => True
  | String c a, String d b => same_letter c d ∧ equal_ignoring_case a b
  | _, _ => False
  end.

Global Instance equal_ignoring_case_dec a b : Decision (equal_ignoring_case a b).
Proof.
  revert b. induction a as [|c a IH]; intros [|d b]; simpl; apply _.
Defined.

(** Equality of a product's type with a category, letter case ignored. *)
Definition in_category (category : string) (p : Product.t) : Prop :=
  ∃ t, Product.type p = Some t ∧ equal_ignoring_case t category.

Global Instance in_category_dec category p : Decision (in_category category p).
Proof.
  unfold in_category. destruct (Product.type p) as [t|].
  - destruct (decide (equal_ignoring_case t category)) as [Heq|Hne].
    + left. eauto.
    + right. intros (t' & [= <-] & Heq). done.
  - right. intros (t' & [=] & _).
Defined.

(** The part of the world that makes up the ledger and its store. *)
Definition ledger (w : World) : list Product.t * list Sale.t * gmap string string :=
  (products w, sales w, localStorage w).

(** Sample data *)
Definition T1 : Product.t :=
  Product.mk (Some "T1") None None None None None None (Some (Fin 200)) (Some (Fin 10)).

Definition today : string := "11/2/2026".

Definition shop : World :=
  mkWorld [T1] [] {["products" := JSON.stringify_products [T1]]} ∅.

(** A product that was stored without a stock. *)
Definition S9 : Product.t :=
  Product.mk (Some "S9") (Some "Sanitary") None (Some "Basin") None None None
    (Some (Fin 50)) None.

Definition showroom : World := mkWorld [T1; S9] [] ∅ ∅.

Definition stock6 : Product.t :=
  Product.mk None None None None None None None None (Some (Fin 6)).

(** A stored text that was cut short. *)
Definition truncated : string :=
  "[{" +:+ JSON.string_text "serial" +:+ ":" +:+ JSON.string_text "T1".

(** ** The sections of the page *)

(** An element of the page that [showSection] or [toggleSalesTab] may
    reach: its id, whether ['main > section'] and ['.sales-tab'] select it,
    and its [style.display]. *)
Module Element.
Record t : Type := mk {
  id : string;
  section : bool;
  tab : bool;
  display : string;
}.

Definition set_display (v : string) (e : t) : t :=
  mk (id e) (section e) (tab e) v.
End Element.

(** The page around the world of the ledger. *)
Record Screen : Type := mkScreen {
  elements : list Element.t;
  world : World;
}.

(** [x.style.display = x.id === id ? 'block' : 'none'] *)
Definition toggle (id : string) (e : Element.t) : Element.t :=
  Element.set_display (if bool_decide (Element.id e = id) then "block" else "none") e.

(** [if (id === name) render();] for a renderer that cannot throw *)
Definition when (id name : string) (render : World → World) (w : World) : World :=
  if bool_decide (id = name) then render w else w.

(** The same for a renderer that can, after statements that may have
    thrown already. *)
Definition when_throwing (id name : string)
    (render : World → World * option Error) (r : World * option Error)
  : World * option Error :=
  match r with
  | (w, None) => if bool_decide (id = name) then render w else (w, None)
  | thrown => thrown
  end.

Definition showSection (id : string) (s : Screen) : Screen * option Error :=
  let els := (λ e, if Element.section e then toggle id e else e) <$> elements s in
  let w := when id "dashboard" updateDashboard (world s) in
  let w := when id "tiles-page" renderTilesTable w in
  let w := when id "sanitary-page" renderSanitaryTable w in
  let w := when id "others-page" renderOthersTable w in
  let r := when_throwing id "sales" renderSalesTabs (w, None) in
  let r := when_throwing id "sales-history" renderSalesHistoryTable r in
  (mkScreen els r.1, r.2).

Definition toggleSalesTab (tabId : string) (s : Screen) : Screen :=
  mkScreen ((λ e, if Element.tab e then toggle tabId e else e) <$> elements s) (world s).

(** ** Further vocabulary *)

(** The row of a sale that has a total. *)
Definition saleRowText (s : Sale.t) : string :=
  match saleRow s with
  | Normal row => row
  | Throw _ => EmptyString
  end.

Definition has_total (s : Sale.t) : Prop := is_Some (Sale.total s).

Global Instance has_total_dec s : Decision (has_total s).
Proof. unfold has_total. apply _. Defined.

(** The sales whose row [renderSalesTabs] sends to the table body [tbody]. *)
Definition tab_sales (tbody : string) (ss : list Sale.t) : list Sale.t :=
  filter (λ s, salesTab (lower (Sale.type s)) = Some tbody) ss.

(** Equality of a sale's type with a category, letter case ignored. *)
Definition sale_in_category (category : string) (s : Sale.t) : Prop :=
  ∃ t, Sale.type s = Some t ∧ equal_ignoring_case t category.

Global Instance sale_in_category_dec category s : Decision (sale_in_category category s).
Proof.
  unfold sale_in_category. destruct (Sale.type s) as [t|].
  - destruct (decide (equal_ignoring_case t category)) as [Heq|Hne].
    + left. eauto.
    + right. intros (t' & [= <-] & Heq). done.
  - right. intros (t' & [=] & _).
Defined.

(** What an element of the page holds; nothing when it was never written. *)
Definition content (el : string) (w : World) : list string :=
  default [] (document w !! el).

(** The world that a whole dialog of sale entry leaves, whether or not the
    closing re-render threw. *)
Definition after_dialog (type : string) (script : list Entry.t) (w : World)
  : option World :=
  fst <$> prepareNewSales type script w.

(** The sales a dialog records, in order. *)
Fixpoint recordedSales (script : list Entry.t) (w : World) : list Sale.t :=
  match script with
  | [] => []
  | e :: rest =>
      let r := recordSale (Entry.serial e) (Entry.quantity e) (Entry.date e) w in
      let new := match r.1 with Recorded s => [s] | InvalidSale => [] end in
      if Entry.more e then new ++ recordedSales rest r.2 else new
  end.

(** A ledger all of whose stocks are numbers of zero or more. *)
Definition stocked (ps : list Product.t) : Prop :=
  Forall (λ p, ∃ s, Product.stock p = Some (Fin s) ∧ 0 ≤ s) ps.

(** A script all of whose quantities are numbers, which in the model are
    whole. *)
Definition numeric (script : list Entry.t) : Prop :=
  Forall (λ e, Entry.quantity e ≠ NaN) script.

(** One step of a [forEach] that appends the text of an item to the
    element chosen for it, if any. *)
Definition routed {A} (route : A → option string) (text : A → string)
    (x : A) (w : World) : World * option Error :=
  match route x with
  | Some el => (append el (text x) w, None)
  | None => (w, None)
  end.

(** The types under which a sale is shown in no tab: the two names, in
    whatever letter case, that every object has without being given them. *)
Definition hidden_type (s : Sale.t) : Prop :=
  sale_in_category "constructor" s ∨ sale_in_category "__proto__" s.

Global Instance hidden_type_dec s : Decision (hidden_type s).
Proof. unfold hidden_type. apply _. Defined.

(** Sample sales: of a tile, of a basin, one whose type reads as a name
    every object inherits, and one that was stored without a total. *)
Definition soldTile : Sale.t :=
  Sale.mk (Some "T1") (Some "Marble") (Some (Fin 3)) (Some (Fin 600)) (Some today)
    (Some "Tile").
Definition soldBasin : Sale.t :=
  Sale.mk (Some "S9") (Some "Basin") (Some (Fin 1)) (Some (Fin 50)) (Some today)
    (Some "SANITARY").
Definition soldOdd : Sale.t :=
  Sale.mk (Some "Z1") None (Some (Fin 1)) (Some (Fin 5)) (Some today)
    (Some "Constructor").
Definition soldBroken : Sale.t :=
  Sale.mk (Some "T1") (Some "Marble") (Some (Fin 2)) None (Some today) (Some "Tile").

Definition books : World := mkWorld [T1; S9] [soldTile; soldBasin; soldOdd] ∅ ∅.
Definition brokenBooks : World :=
  mkWorld [T1; S9] [soldTile; soldBroken; soldBasin] ∅ ∅.

(** A sale made of a product of [ps]: it carries the serial, the name and
    the type of a product that has a serial, and its total is its quantity
    at that product's price per box. *)
Definition sale_of (ps : list Product.t) (s : Sale.t) : Prop :=
  ∃ p, p ∈ ps ∧ is_Some (Product.serial p) ∧
    Sale.serial s = Product.serial p ∧
    Sale.name s = Product.name p ∧
    Sale.type s = Product.type p ∧
    Sale.total s
      = Some (mul (Fin (amount (Product.pricePerBox p))) (ToNumber (Sale.quantity s))).

(** A product that no serial typed at the prompt can select: it has no
    serial, or a product before it has the same one. *)
Definition unreachable (ps : list Product.t) (j : nat) : Prop :=
  ∃ q, ps !! j = Some q ∧
    (Product.serial q = None ∨
     ∃ j' q', (j' < j)%nat ∧ ps !! j' = Some q' ∧ Product.serial q' = Product.serial q).

(** Two products under one serial. *)
Definition twins : World :=
  mkWorld [T1; Product.set_stock (Fin 99) T1] [] ∅ ∅.

(** The elements that the view of a section is rendered into. *)
Definition view (id : string) : list string :=
  if decide (id = "dashboard")
  then ["total-products"; "total-stock"; "total-sales"; "low-stock-ul"]
  else if decide (id = "tiles-page") then ["#tiles-table tbody"]
  else if decide (id = "sanitary-page") then ["#sanitary-table tbody"]
  else if decide (id = "others-page") then ["#others-table tbody"]
  else if decide (id = "sales")
  then ["#sales-tiles tbody"; "#sales-sanitary tbody"; "#sales-others tbody"]
  else if decide (id = "sales-history") then ["#sales-table tbody"]
  else [].

(** What [showSection id] makes of the display of an element. *)
Definition shown (id : string) (e e' : Element.t) : Prop :=
  Element.id e' = Element.id e ∧ Element.section e' = Element.section e ∧
  Element.tab e' = Element.tab e ∧
  Element.display e'
  = if Element.section e
    then (if decide (Element.id e = id) then "block" else "none")
    else Element.display e.

(** A page with three sections and two sales tabs. *)
Definition front : Screen :=
  mkScreen [Element.mk "dashboard" true false "block";
            Element.mk "sales" true false "none";
            Element.mk "sales-history" true false "none";
            Element.mk "sales-tiles" false true "block";
            Element.mk "sales-others" false true "none"] brokenBooks.

(** ** Stored values

    The value that the text of a number, of a product and of a sale stands
    for: what [JSON.parse] is to return for what [JSON.stringify] wrote. *)

(** A number as a JSON value: [NaN] is written as [null]. *)
Definition number_json (n : number) : JSON.value :=
  match n with
  | Fin z => JSON.Number z 0
  | NaN => JSON.Null
  end.

(** The member of an object for a property: none when it is [undefined]. *)
Definition member {A} (json : A → JSON.value) (key : string) (v : option A)
  : list (string * JSON.value) :=
  match v with
  | Some a => [(key, json a)]
  | None => []
  end.

(** The objects for a product and for a sale, members in the order of the
    properties. *)
Definition product_json (p : Product.t) : JSON.value :=
  JSON.Object
    (member JSON.Str "serial" (Product.serial p)
     ++ member JSON.Str "type" (Product.type p)
     ++ member JSON.Str "brand" (Product.brand p)
     ++ member JSON.Str "name" (Product.name p)
     ++ member JSON.Str "size" (Product.size p)
     ++ member number_json "numBoxes" (Product.numBoxes p)
     ++ member number_json "numPieces" (Product.numPieces p)
     ++ member number_json "pricePerBox" (Product.pricePerBox p)
     ++ member number_json "stock" (Product.stock p)).

Definition sale_json (s : Sale.t) : JSON.value :=
  JSON.Object
    (member JSON.Str "serial" (Sale.serial s)
     ++ member JSON.Str "name" (Sale.name s)
     ++ member number_json "quantity" (Sale.quantity s)
     ++ member number_json "total" (Sale.total s)
     ++ member JSON.Str "date" (Sale.date s)
     ++ member JSON.Str "type" (Sale.type s)).

(** The text after a number or a word: a comma or a closing bracket. *)
Definition closes (r : string) : Prop :=
  ∃ c r', r = String c r' ∧ c ∈ [","%char; "}"%char; "]"%char].

(** [t] is the text of the member [m]: its key, a colon and a text that
    parses to its value in front of whatever closes a value. *)
Definition written (m : string * JSON.value) (t : string) : Prop :=
  ∃ vt, t = JSON.string_text m.1 +:+ ":" +:+ vt ∧
    ∀ fuel r, closes r → JSON.parse_value (S fuel) (vt +:+ r) = Some (m.2, r).

(** [obj[key]] on a parsed object; of two members with one key the later
    one counts. *)
Fixpoint get (key : string) (ms : list (string * JSON.value)) : option JSON.value :=
  match ms with
  | [] => None
  | (k, v) :: rest =>
      match get key rest with
      | Some v' => Some v'
      | None => if decide (k = key) then Some v else None
      end
  end.

(** The number a numeral of the text stands for, when it is whole. *)
Definition whole (mantissa exponent : Z) : option number :=
  if decide (0 ≤ exponent) then Some (Fin (mantissa * 10 ^ exponent))
  else if decide (mantissa `mod` 10 ^ (- exponent) = 0)
       then Some (Fin (mantissa `div` 10 ^ (- exponent)))
       else None.

(** A property read as the data model types it: a string or absent, a
    whole number or absent; [None] when it holds anything else. *)
Definition string_property (key : string) (ms : list (string * JSON.value))
  : option (option string) :=
  match get key ms with
  | None => Some None
  | Some (JSON.Str s) => Some (Some s)
  | Some _ => None
  end.

Definition number_property (key : string) (ms : list (string * JSON.value))
  : option (option number) :=
  match get key ms with
  | None => Some None
  | Some (JSON.Number m e) => Some <$> whole m e
  | Some _ => None
  end.

(** The product and the sale that the code reads off a parsed object,
    property by property. *)
Definition product_of_json (v : JSON.value) : option Product.t :=
  match v with
  | JSON.Object ms =>
      serial ← string_property "serial" ms;
      type ← string_property "type" ms;
      brand ← string_property "brand" ms;
      name ← string_property "name" ms;
      size ← string_property "size" ms;
      numBoxes ← number_property "numBoxes" ms;
      numPieces ← number_property "numPieces" ms;
      pricePerBox ← number_property "pricePerBox" ms;
      stock ← number_property "stock" ms;
      Some (Product.mk serial type brand name size numBoxes numPieces pricePerBox stock)
  | _ => None
  end.

Definition sale_of_json (v : JSON.value) : option Sale.t :=
  match v with
  | JSON.Object ms =>
      serial ← string_property "serial" ms;
      name ← string_property "name" ms;
      quantity ← number_property "quantity" ms;
      total ← number_property "total" ms;
      date ← string_property "date" ms;
      type ← string_property "type" ms;
      Some (Sale.mk serial name quantity total date type)
  | _ => None
  end.

(** The collections that the code reads off a parsed array. *)
Definition products_of_json (v : JSON.value) : option (list Product.t) :=
  match v with
  | JSON.Array vs => mapM product_of_json vs
  | _ => None
  end.

Definition sales_of_json (v : JSON.value) : option (list Sale.t) :=
  match v with
  | JSON.Array vs => mapM sale_of_json vs
  | _ => None
  end.

(** A figure that is not [NaN]. *)
Definition plain (v : option number) : Prop := v ≠ Some NaN.

(** A product and a sale that hold no [NaN]. *)
Definition plain_product (p : Product.t) : Prop :=
  plain (Product.numBoxes p) ∧ plain (Product.numPieces p) ∧
  plain (Product.pricePerBox p) ∧ plain (Product.stock p).

Definition plain_sale (s : Sale.t) : Prop :=
  plain (Sale.quantity s) ∧ plain (Sale.total s).

(** What a stored number reads back as: [NaN] is stored as [null], which
    is no number. *)
Definition read_back (v : option number) : option (option number) :=
  match v with
  | Some NaN => None
  | _ => Some v
  end.

(** ** Staying in the exact range *)

(** How far from zero a run of additions and subtractions of the numbers
    of [l] can get: the sum of their sizes. *)
Definition weight (l : list Z) : Z := Zsum (Z.abs <$> l).

(** The quantities typed in a dialog. *)
Definition quantities (script : list Entry.t) : list Z :=
  (λ e, amount (Some (Entry.quantity e))) <$> script.




(** A tile whose type is written in mixed case, and a catalogue with it. *)
Definition mosaic : Product.t :=
  Product.mk (Some "M4") (Some "TiLe") None (Some "Mosaic") None None None
    (Some (Fin 120)) (Some (Fin 4)).

Definition catalogue : list Product.t := [mosaic; S9; T1].

(** * Properties *)

(** ** Recording one sale *)

Lemma or_zero_amount (v : option number) : or_zero v = Fin (amount v).
Proof.
  destruct v as [[z|]|]; simpl; try done.
  case_bool_decide; congruence.
Qed.

Lemma mul_comm (a b : number) : mul a b = mul b a.
Proof. destruct a, b; simpl; try done. f_equal. lia. Qed.

Section RecordSale.
Variables (serial : answer) (quantity : number) (date : string) (w : World).

Lemma find_product_Some i p :
  find_product serial (products w) = Some (i, p) →
  products w !! i = Some p ∧ strict_eq_answer (Product.serial p) serial.
Proof.
  unfold find_product. intros H%list_find_Some. tauto.
Qed.

Lemma find_product_None :
  find_product serial (products w) = None ↔
  ∀ p, p ∈ products w → ¬ strict_eq_answer (Product.serial p) serial.
Proof.
  unfold find_product. rewrite list_find_None, Forall_forall. done.
Qed.

Lemma strict_eq_answer_value (field : option string) :
  strict_eq_answer field serial → field = answer_value serial.
Proof. destruct field, serial; simpl; naive_solver. Qed.

(** A recorded sale, unfolded: the match, the test that let it through,
    the sale and the next world. *)
Lemma recordSale_Recorded sale w' :
  recordSale serial quantity date w = (Recorded sale, w') →
  ∃ i p, find_product serial (products w) = Some (i, p) ∧
    gt quantity (ToNumber (Product.stock p)) = false ∧
    sale = Sale.mk (answer_value serial) (Product.name p) (Some quantity)
             (Some (mul (or_zero (Product.pricePerBox p)) quantity))
             (Some date) (Product.type p) ∧
    w' = mkWorld
           (<[i := Product.set_stock (sub (ToNumber (Product.stock p)) quantity) p]> (products w))
           (sales w ++ [sale]) (localStorage w) (document w).
Proof.
  unfold recordSale.
  destruct (find_product serial (products w)) as [[i p]|]; [|done].
  destruct (gt quantity _) eqn:Hgt; [done|].
  intros [= <- <-]. exists i, p. done.
Qed.

Lemma recordSale_accepts i p :
  find_product serial (products w) = Some (i, p) →
  gt quantity (ToNumber (Product.stock p)) = false →
  ∃ sale w', recordSale serial quantity date w = (Recorded sale, w').
Proof. intros Hfind Hgt. unfold recordSale. rewrite Hfind, Hgt. eauto. Qed.

(** C3. A call whose serial matches no product, or whose quantity exceeds
    the stock of the product it matches, is answered with the alert
    [InvalidSale] and leaves the world, and with it both collections, as
    it was. *)
Theorem recordSale_rejects :
  (∀ p, p ∈ products w → ¬ strict_eq_answer (Product.serial p) serial)
  ∨ (∃ i p, find_product serial (products w) = Some (i, p) ∧
       gt quantity (ToNumber (Product.stock p)) = true) →
  recordSale serial quantity date w = (InvalidSale, w).
Proof.
  unfold recordSale. intros [Hnone|(i & p & Hfind & Hgt)].
  - apply find_product_None in Hnone. by rewrite Hnone.
  - by rewrite Hfind, Hgt.
Qed.

(** C4. A recorded sale takes the quantity off the stock of the matched
    product, and appends at the end of [sales] one sale whose total is the
    quantity times the price per box (zero for a missing price) and which
    carries the date and the product's serial, name and type.  The
    subtraction and the multiplication are those of the doubles: the new
    stock is exactly the old one less the quantity, and the total exactly
    the product, when the numbers and the result are whole numbers of the
    exact range. *)
Theorem recordSale_effect sale w' :
  recordSale serial quantity date w = (Recorded sale, w') →
  ∃ i product product',
    find_product serial (products w) = Some (i, product) ∧
    products w' = <[i := product']> (products w) ∧
    products w' !! i = Some product' ∧
    Product.stock product' = Some (sub (ToNumber (Product.stock product)) quantity) ∧
    (∀ s q, Product.stock product = Some (Fin s) → quantity = Fin q →
       safe s → safe q → safe (s - q) →
       Product.stock product' = Some (Fin (s - q))) ∧
    Sale.quantity sale = Some quantity ∧
    Sale.total sale = Some (mul quantity (Fin (amount (Product.pricePerBox product)))) ∧
    (∀ q, quantity = Fin q →
       safe q → safe (amount (Product.pricePerBox product)) →
       safe (q * amount (Product.pricePerBox product)) →
       Sale.total sale = Some (Fin (q * amount (Product.pricePerBox product)))) ∧
    Sale.date sale = Some date ∧
    Sale.serial sale = Product.serial product ∧
    Sale.name sale = Product.name product ∧
    Sale.type sale = Product.type product ∧
    sales w' = sales w ++ [sale].
Proof.
  intros (i & p & Hfind & Hgt & -> & ->)%recordSale_Recorded.
  destruct (find_product_Some _ _ Hfind) as [Hi Hserial].
  exists i, p, (Product.set_stock (sub (ToNumber (Product.stock p)) quantity) p).
  simpl. repeat split; try done.
  - apply list_lookup_insert_eq. by eapply lookup_lt_Some.
  - intros s q -> -> _ _ _. done.
  - by rewrite or_zero_amount, mul_comm.
  - intros q -> _ _ _. rewrite or_zero_amount. simpl. do 2 f_equal. lia.
  - symmetry. by apply strict_eq_answer_value.
Qed.

(** C10. A recorded sale leaves every product with another serial as it
    was, changes nothing but the stock of the product it matched, and
    leaves every earlier sale in its place. *)
Theorem recordSale_frame sale w' :
  recordSale serial quantity date w = (Recorded sale, w') →
  (∀ j p, products w !! j = Some p →
     ¬ strict_eq_answer (Product.serial p) serial → products w' !! j = Some p) ∧
  (∃ i product product',
     find_product serial (products w) = Some (i, product) ∧
     products w' !! i = Some product' ∧ same_but_stock product product' ∧
     ∀ j, j ≠ i → products w' !! j = products w !! j) ∧
  length (products w') = length (products w) ∧
  (∀ k s, sales w !! k = Some s → sales w' !! k = Some s) ∧
  length (sales w') = S (length (sales w)).
Proof.
  intros (i & p & Hfind & Hgt & -> & ->)%recordSale_Recorded.
  destruct (find_product_Some _ _ Hfind) as [Hi Hserial].
  simpl. split_and!.
  - intros j p' Hj Hne. rewrite list_lookup_insert_ne; [done|].
    intros <-. congruence.
  - exists i, p, (Product.set_stock (sub (ToNumber (Product.stock p)) quantity) p).
    split; [done|]. split; [|split].
    + apply list_lookup_insert_eq. by eapply lookup_lt_Some.
    + by unfold same_but_stock.
    + intros j Hj. by rewrite list_lookup_insert_ne.
  - apply length_insert.
  - intros k s Hk. by apply lookup_app_l_Some.
  - rewrite length_app. simpl. lia.
Qed.

(** C9. On a product without a [stock] the test of sufficiency lets every
    quantity through: the sale is recorded and the stock is [NaN] from
    then on. *)
Theorem missing_stock_accepts i p :
  find_product serial (products w) = Some (i, p) →
  Product.stock p = None →
  gt quantity (ToNumber (Product.stock p)) = false ∧
  ∃ sale w' p',
    recordSale serial quantity date w = (Recorded sale, w') ∧
    Sale.quantity sale = Some quantity ∧
    sales w' = sales w ++ [sale] ∧
    products w' !! i = Some p' ∧
    Product.stock p' = Some NaN.
Proof.
  intros Hfind Hstock.
  assert (gt quantity (ToNumber (Product.stock p)) = false) as Hgt.
  { rewrite Hstock. by destruct quantity. }
  split; [done|].
  destruct (recordSale_accepts _ _ Hfind Hgt) as (sale & w' & Hrec).
  destruct (recordSale_Recorded _ _ Hrec) as (i' & p0 & Hfind' & _ & -> & ->).
  rewrite Hfind in Hfind'. injection Hfind' as <- <-.
  destruct (find_product_Some _ _ Hfind) as [Hi _].
  eexists _, _, _. split; [exact Hrec|]. simpl. split_and!; try done.
  - apply list_lookup_insert_eq. by eapply lookup_lt_Some.
  - simpl. rewrite Hstock. by destruct quantity.
Qed.

End RecordSale.


(** The witnesses of this section: the sample shop holds the product T1
    with a stock of 10 and a price of 200. *)
Lemma recordSale_rejects_witness :
  (∀ p, p ∈ products shop → ¬ strict_eq_answer (Product.serial p) (Text "UNKNOWN")) ∧
  recordSale (Text "UNKNOWN") (Fin 1) today shop = (InvalidSale, shop) ∧
  recordSale (Text "T1") (Fin 20) today shop = (InvalidSale, shop).
Proof.
  assert (∀ p, p ∈ products shop → ¬ strict_eq_answer (Product.serial p) (Text "UNKNOWN"))
    as Hnone.
  { intros p Hp. apply list_elem_of_singleton in Hp. subst p. simpl. discriminate. }
  split; [exact Hnone|]. split.
  - apply recordSale_rejects. left. exact Hnone.
  - apply recordSale_rejects. right. exists 0%nat, T1. split; reflexivity.
Defined.

Lemma recordSale_effect_witness :
  recordSale (Text "T1") (Fin 3) today shop
  = (Recorded (Sale.mk (Some "T1") None (Some (Fin 3)) (Some (Fin 600)) (Some today) None),
     mkWorld [Product.set_stock (Fin 7) T1]
       [Sale.mk (Some "T1") None (Some (Fin 3)) (Some (Fin 600)) (Some today) None]
       (localStorage shop) ∅) ∧
  safe 10 ∧ safe 3 ∧ safe (10 - 3) ∧ safe 200 ∧ safe (3 * 200) ∧
  ∃ i product product' sale,
    find_product (Text "T1") (products shop) = Some (i, product) ∧
    Product.stock product = Some (Fin 10) ∧
    Product.pricePerBox product = Some (Fin 200) ∧
    Product.stock product' = Some (Fin (10 - 3)) ∧
    Sale.total sale = Some (Fin (3 * 200)).
Proof.
  assert (safe 10 ∧ safe 3 ∧ safe (10 - 3) ∧ safe 200 ∧ safe (3 * 200))
    as (H10 & H3 & H7 & H200 & H600) by (unfold safe; lia).
  split; [reflexivity|]. split_and!; [exact H10|exact H3|exact H7|exact H200|exact H600|].
  destruct (recordSale_effect (Text "T1") (Fin 3) today shop _ _ eq_refl)
    as (i & product & product' & Hfind & _ & _ & _ & Hstock & _ & _ & Htotal & _).
  exists i, product, product'. eexists. split; [exact Hfind|].
  injection Hfind as _ <-.
  split; [reflexivity|]. split; [reflexivity|]. split.
  - apply Hstock; [reflexivity..|exact H10|exact H3|exact H7].
  - apply Htotal; [reflexivity|exact H3|exact H200|exact H600].
Defined.

Lemma recordSale_frame_witness :
  recordSale (Text "T1") (Fin 3) today showroom
  = (Recorded (Sale.mk (Some "T1") None (Some (Fin 3)) (Some (Fin 600)) (Some today) None),
     mkWorld [Product.set_stock (Fin 7) T1; S9]
       [Sale.mk (Some "T1") None (Some (Fin 3)) (Some (Fin 600)) (Some today) None] ∅ ∅) ∧
  products (sell (Text "T1") showroom (Fin 3, today)) !! 1%nat = Some S9.
Proof.
  split; [reflexivity|].
  destruct (recordSale_frame (Text "T1") (Fin 3) today showroom _ _ eq_refl) as [Hother _].
  apply (Hother 1%nat S9); [reflexivity|]. simpl. discriminate.
Defined.

Lemma missing_stock_accepts_witness :
  find_product (Text "S9") (products showroom) = Some (1%nat, S9) ∧
  Product.stock S9 = None ∧
  ∃ sale w' p',
    recordSale (Text "S9") (Fin 1000) today showroom = (Recorded sale, w') ∧
    Sale.quantity sale = Some (Fin 1000) ∧
    sales w' = sales showroom ++ [sale] ∧
    products w' !! 1%nat = Some p' ∧
    Product.stock p' = Some NaN.
Proof.
  split; [reflexivity|]. split; [reflexivity|].
  exact (proj2 (missing_stock_accepts (Text "S9") (Fin 1000) today showroom 1 S9
                  eq_refl eq_refl)).
Defined.

(** ** Quantities that are not positive *)

(** C2, as stated, fails: a quantity of zero on a product in stock is not
    answered with [InvalidSale]; a sale of nothing is recorded. *)
Lemma zero_quantity_recorded :
  gt (Fin 0) (Fin 0) = false ∧
  recordSale (Text "T1") (Fin 0) today shop ≠ (InvalidSale, shop) ∧
  sales (sell (Text "T1") shop (Fin 0, today))
  = [Sale.mk (Some "T1") None (Some (Fin 0)) (Some (Fin 0)) (Some today) None].
Proof. split; [reflexivity|]. split; [discriminate|reflexivity]. Qed.

(** The same for a negative quantity, which adds to the stock, and for a
    quantity that is not a number. *)
Example negative_quantity_recorded :
  Product.stock <$> products (sell (Text "T1") shop (Fin (-3), today)) = [Some (Fin 13)].
Proof. reflexivity. Qed.

Example NaN_quantity_recorded :
  Product.stock <$> products (sell (Text "T1") shop (NaN, today)) = [Some NaN].
Proof. reflexivity. Qed.

(** A negative quantity is recorded from a negative stock as well, when it
    does not exceed it. *)
Example negative_stock_recorded :
  Product.stock
    <$> products (sell (Text "T1") (set_products [Product.set_stock (Fin (-5)) T1] shop)
                    (Fin (-10), today))
  = [Some (Fin 5)].
Proof. reflexivity. Qed.

(** C2, amended. The quantity is compared with the stock and nothing else.
    A call whose quantity is not a positive number is turned down when, and
    only when, its serial matches no product or the quantity exceeds the
    stock of the product matched, and then the world is as it was; so it is
    recorded when the matched product has a stock of zero or more, or none
    that is a number, or when the quantity itself is not a number. *)
Theorem recordSale_not_positive serial quantity date w :
  gt quantity (Fin 0) = false →
  ((recordSale serial quantity date w).1 = InvalidSale ↔
     find_product serial (products w) = None ∨
     ∃ i p, find_product serial (products w) = Some (i, p) ∧
       gt quantity (ToNumber (Product.stock p)) = true) ∧
  (∀ w', recordSale serial quantity date w = (InvalidSale, w') → w' = w) ∧
  (find_product serial (products w) = None →
     recordSale serial quantity date w = (InvalidSale, w)) ∧
  (∀ i p, find_product serial (products w) = Some (i, p) →
     quantity = NaN ∨ ToNumber (Product.stock p) = NaN
       ∨ ge (ToNumber (Product.stock p)) (Fin 0) = true →
     ∃ sale w', recordSale serial quantity date w = (Recorded sale, w')
       ∧ Sale.quantity sale = Some quantity).
Proof.
  intros Hq. split_and!.
  - unfold recordSale. destruct (find_product _ _) as [[i p]|]; [|by split; [left|]].
    destruct (gt quantity (ToNumber _)) eqn:Hgt; simpl.
    + split; [|done]. intros _. right. by exists i, p.
    + split; [done|]. intros [?|(i' & p' & [= <- <-] & Hgt')]; congruence.
  - intros w'. unfold recordSale.
    destruct (find_product _ _) as [[i p]|]; [|by intros [=]].
    destruct (gt quantity (ToNumber _)); [by intros [=]|discriminate].
  - intros Hnone. unfold recordSale. by rewrite Hnone.
  - intros i p Hfind Hcase.
    assert (gt quantity (ToNumber (Product.stock p)) = false) as Hgt.
    { destruct quantity as [q|]; [|done].
      destruct (ToNumber (Product.stock p)) as [s|]; [|done].
      destruct Hcase as [?|[?|Hs]]; [done..|].
      unfold ge, le in Hs. simpl in *.
      apply bool_decide_eq_true in Hs. apply bool_decide_eq_false in Hq.
      apply bool_decide_eq_false. lia. }
    destruct (recordSale_accepts _ _ date _ _ _ Hfind Hgt) as (sale & w' & Hrec).
    exists sale, w'. split; [done|].
    by destruct (recordSale_Recorded _ _ _ _ _ _ Hrec) as (?&?&?&?&->&?).
Qed.

Lemma recordSale_not_positive_witness :
  gt (Fin (-3)) (Fin 0) = false ∧
  ∃ sale w', recordSale (Text "T1") (Fin (-3)) today shop = (Recorded sale, w')
    ∧ Sale.quantity sale = Some (Fin (-3)).
Proof.
  split; [reflexivity|].
  destruct (recordSale_not_positive (Text "T1") (Fin (-3)) today shop eq_refl)
    as (_ & _ & _ & Hrec).
  apply (Hrec 0%nat T1); [reflexivity|]. right. right. reflexivity.
Defined.

(** ** The stock along a run of sales *)

Lemma Zsum_cons x l : Zsum (x :: l) = x + Zsum l.
Proof. reflexivity. Qed.

(** The product found for a serial stays the one found when its stock is
    rewritten. *)
Lemma find_product_insert serial (ps : list Product.t) i p p' :
  find_product serial ps = Some (i, p) →
  Product.serial p' = Product.serial p →
  find_product serial (<[i := p']> ps) = Some (i, p').
Proof.
  unfold find_product. intros (Hi & Hp & Hfirst)%list_find_Some Hserial.
  apply list_find_Some. split_and!.
  - apply list_lookup_insert_eq. by eapply lookup_lt_Some.
  - by rewrite Hserial.
  - intros j y Hj Hlt. rewrite list_lookup_insert_ne in Hj by lia. eauto.
Qed.

(** Where serials are unique, the product found for a serial is the
    product that has it. *)
Lemma find_product_unique (ps : list Product.t) i p s :
  ps !! i = Some p →
  Product.serial p = Some s →
  (∀ j q, ps !! j = Some q → Product.serial q = Some s → j = i) →
  find_product (Text s) ps = Some (i, p).
Proof.
  intros Hi Hs Hunique. apply list_find_Some. split_and!; [done|by rewrite Hs|].
  intros j q Hj Hlt Hq. destruct (Product.serial q) as [s'|] eqn:Hs'; [|done].
  simpl in Hq. subst s'. specialize (Hunique j q Hj Hs'). lia.
Qed.

(** One recorded sale of a whole number of boxes from a whole stock. *)
Lemma sell_step serial w i p s q date :
  find_product serial (products w) = Some (i, p) →
  Product.stock p = Some (Fin s) →
  recorded serial w (Fin q, date) →
  q ≤ s ∧
  ∃ p', find_product serial (products (sell serial w (Fin q, date))) = Some (i, p') ∧
    Product.stock p' = Some (Fin (s - q)).
Proof.
  intros Hfind Hstock [sale Hrec]. unfold sell. simpl in *.
  destruct (recordSale serial (Fin q) date w) as [o w'] eqn:Hsale.
  simpl in Hrec. subst o.
  apply recordSale_Recorded in Hsale as (i' & p0 & Hfind' & Hgt & _ & ->).
  rewrite Hfind in Hfind'. injection Hfind' as <- <-.
  rewrite Hstock in *. simpl in *.
  apply bool_decide_eq_false in Hgt. split; [lia|].
  eexists. split; [eapply find_product_insert; [exact Hfind|reflexivity]|].
  done.
Qed.

Lemma stock_run serial calls w i p s0 :
  find_product serial (products w) = Some (i, p) →
  Product.stock p = Some (Fin s0) →
  0 ≤ s0 →
  Forall (λ call, call.1 ≠ NaN) calls →
  successful serial calls w →
  ∀ k, ∃ p',
    find_product serial (products (fold_left (sell serial) (take k calls) w)) = Some (i, p') ∧
    Product.stock p' = Some (Fin (s0 - Zsum ((λ call, amount (Some call.1)) <$> take k calls))) ∧
    0 ≤ s0 - Zsum ((λ call, amount (Some call.1)) <$> take k calls).
Proof.
  intros Hfind Hstock Hs0 Hnum. revert w p s0 Hfind Hstock Hs0.
  induction Hnum as [|[quantity date] calls Hq Hnum IH];
    intros w p s0 Hfind Hstock Hs0 Hrun k.
  - rewrite take_nil. simpl. exists p. rewrite Z.sub_0_r. done.
  - destruct k as [|k].
    { simpl. exists p. rewrite Z.sub_0_r. done. }
    destruct Hrun as [Hrec Hrun].
    destruct quantity as [q|]; [|done].
    destruct (sell_step _ _ _ _ _ _ _ Hfind Hstock Hrec) as (Hle & p1 & Hfind1 & Hstock1).
    destruct (IH _ _ _ Hfind1 Hstock1 ltac:(lia) Hrun k) as (p' & Hfind' & Hstock' & Hge).
    exists p'.
    change (take (S k) ((Fin q, date) :: calls)) with ((Fin q, date) :: take k calls).
    rewrite fmap_cons, Zsum_cons, Z.sub_add_distr. done.
Qed.

Lemma sold_numbers (calls : list (number * string)) (acc : Z) :
  Forall (λ call, call.1 ≠ NaN) calls →
  fold_left (λ sum call, add sum call.1) calls (Fin acc)
  = Fin (acc + Zsum ((λ call, amount (Some call.1)) <$> calls)).
Proof.
  intros Hnum. revert acc. induction Hnum as [|[[q|] date] calls Hq Hnum IH]; intros acc.
  - simpl. f_equal. lia.
  - rewrite fmap_cons, Zsum_cons. cbn [fold_left].
    change (add (Fin acc) (Fin q, date).1) with (Fin (acc + q)).
    rewrite IH. f_equal. cbn [amount fst]. lia.
  - done.
Qed.

Lemma weight_cons x l : weight (x :: l) = Z.abs x + weight l.
Proof. reflexivity. Qed.

Lemma weight_nonneg l : 0 ≤ weight l.
Proof. induction l as [|x l IH]; [done|]. rewrite weight_cons. lia. Qed.

(** No sum of the first numbers of a list gets farther from zero than its
    weight. *)
Lemma Zsum_take_weight {A} (f : A → Z) (l : list A) k :
  Z.abs (Zsum (f <$> take k l)) ≤ weight (f <$> l).
Proof.
  revert k. induction l as [|x l IH]; intros k.
  - rewrite take_nil. done.
  - destruct k as [|k].
    + pose proof (weight_nonneg (f <$> x :: l)). by rewrite take_0.
    + change (take (S k) (x :: l)) with (x :: take k l).
      rewrite !fmap_cons, Zsum_cons, weight_cons. specialize (IH k). lia.
Qed.

(** C1, amended. When the stock of the product found for a serial is a
    whole number of zero or more, every quantity of a run of recorded sales
    for that serial is a whole number, and the stock and the sizes of the
    quantities add up to no more than 2^53, then at every point of the run
    the stock is the initial stock less the quantities sold so far, and is
    zero or more; the stock and the quantity sold stay in the exact range. *)
Theorem stock_after_sales serial calls w i p s0 :
  find_product serial (products w) = Some (i, p) →
  Product.stock p = Some (Fin s0) →
  0 ≤ s0 →
  Forall (λ call, call.1 ≠ NaN) calls →
  safe (s0 + weight ((λ call, amount (Some call.1)) <$> calls)) →
  successful serial calls w →
  (∀ k, ∃ p',
     products (fold_left (sell serial) (take k calls) w) !! i = Some p' ∧
     Product.stock p' = Some (Fin (s0 - Zsum ((λ call, amount (Some call.1)) <$> take k calls))) ∧
     0 ≤ s0 - Zsum ((λ call, amount (Some call.1)) <$> take k calls) ∧
     safe (s0 - Zsum ((λ call, amount (Some call.1)) <$> take k calls)) ∧
     safe (Zsum ((λ call, amount (Some call.1)) <$> take k calls))) ∧
  stock_law serial calls w.
Proof.
  intros Hfind Hstock Hs0 Hnum Hsafe Hrun.
  pose proof (stock_run _ _ _ _ _ _ Hfind Hstock Hs0 Hnum Hrun) as Hk.
  split.
  - intros k. destruct (Hk k) as (p' & Hfind' & Hp' & Hge).
    exists p'. split; [by apply find_product_Some in Hfind' as [? _]|].
    split; [done|]. split; [done|].
    pose proof (Zsum_take_weight (λ call : number * string, amount (Some call.1)) calls k)
      as Hbound.
    revert Hsafe Hge Hbound. unfold safe.
    generalize (weight ((λ call : number * string, amount (Some call.1)) <$> calls)).
    generalize (Zsum ((λ call : number * string, amount (Some call.1)) <$> take k calls)).
    intros. lia.
  - intros i' p0 Hfind0 _ k. rewrite Hfind in Hfind0. injection Hfind0 as <- <-.
    destruct (Hk k) as (p' & Hfind' & Hstock' & Hge).
    apply find_product_Some in Hfind' as [Hi' _].
    apply find_product_Some in Hfind as [Hi _].
    unfold stock_at, sold. cbv zeta. rewrite Hi', Hi. simpl.
    rewrite Hstock', Hstock.
    rewrite (sold_numbers _ 0) by by apply Forall_take.
    set (total := Zsum _) in *. clearbody total.
    simpl. split; apply bool_decide_eq_true; lia.
Qed.

Lemma stock_after_sales_witness :
  find_product (Text "T1") (products shop) = Some (0%nat, T1) ∧
  successful (Text "T1") [(Fin 3, today); (Fin 7, today)] shop ∧
  safe (10 + weight ((λ call : number * string, amount (Some call.1))
                       <$> [(Fin 3, today); (Fin 7, today)])) ∧
  (∃ p',
     products (fold_left (sell (Text "T1")) [(Fin 3, today); (Fin 7, today)] shop) !! 0%nat
     = Some p' ∧
     Product.stock p' = Some (Fin (10 - (3 + (7 + 0)))) ∧
     0 ≤ 10 - (3 + (7 + 0)) ∧
     safe (10 - (3 + (7 + 0))) ∧
     safe (3 + (7 + 0))) ∧
  stock_law (Text "T1") [(Fin 3, today); (Fin 7, today)] shop.
Proof.
  assert (successful (Text "T1") [(Fin 3, today); (Fin 7, today)] shop) as Hrun.
  { simpl. split; [eexists; reflexivity|]. split; [eexists; reflexivity|exact I]. }
  split; [reflexivity|]. split; [exact Hrun|].
  assert (safe (10 + weight ((λ call : number * string, amount (Some call.1))
                               <$> [(Fin 3, today); (Fin 7, today)]))) as Hsafe.
  { vm_compute. split; discriminate. }
  split; [exact Hsafe|].
  destruct (stock_after_sales (Text "T1") [(Fin 3, today); (Fin 7, today)] shop 0 T1 10
              eq_refl eq_refl ltac:(discriminate)
              ltac:(repeat constructor; discriminate) Hsafe Hrun) as [Hk Hlaw].
  split; [exact (Hk 2%nat)|exact Hlaw].
Defined.

(** C1, as stated, fails: a quantity that is not a number passes the test
    against the stock, and the stock is [NaN] from then on; it is neither
    equal to a number nor zero or more.  The same happens to a product that
    was stored without a stock, on a sale of a single box. *)
Lemma stock_law_fails :
  ¬ stock_law (Text "T1") [(NaN, today)] shop ∧
  ¬ stock_law (Text "S9") [(Fin 1, today)] showroom.
Proof.
  split; intros Hlaw.
  - destruct (Hlaw 0%nat T1 eq_refl) with (k := 1%nat) as [_ Hge].
    + simpl. split; [eexists; reflexivity|exact I].
    + vm_compute in Hge. discriminate.
  - destruct (Hlaw 1%nat S9 eq_refl) with (k := 1%nat) as [_ Hge].
    + simpl. split; [eexists; reflexivity|exact I].
    + vm_compute in Hge. discriminate.
Qed.

Example stock_after_NaN :
  recorded (Text "T1") shop (NaN, today) ∧
  stock_at 0 (sell (Text "T1") shop (NaN, today)) = NaN ∧
  ge (stock_at 0 (sell (Text "T1") shop (NaN, today))) (Fin 0) = false.
Proof. split; [eexists; reflexivity|]. split; reflexivity. Qed.

(** ** Writing to the page *)

Section Page.
Context {A : Type} (el : string) (item : A → string).

Lemma fold_append_ledger (l : list A) w :
  ledger (fold_left (λ w x, append el (item x) w) l w) = ledger w.
Proof. revert w. induction l as [|x l IH]; intros w; simpl; [done|]. by rewrite IH. Qed.

Lemma fold_append_document (l : list A) w :
  document (fold_left (λ w x, append el (item x) w) l w) !! el
  = Some (default [] (document w !! el) ++ (item <$> l)) ∨
  l = [] ∧ document (fold_left (λ w x, append el (item x) w) l w) = document w.
Proof.
  revert w. induction l as [|x l IH]; intros w; simpl; [by right|]. left.
  destruct (IH (append el (item x) w)) as [->| [-> ->]].
  - simpl. rewrite lookup_insert_eq. simpl. by rewrite <- app_assoc.
  - simpl. by rewrite lookup_insert_eq.
Qed.

Lemma fold_append_other (l : list A) w el' :
  el ≠ el' →
  document (fold_left (λ w x, append el (item x) w) l w) !! el' = document w !! el'.
Proof.
  intros Hne. revert w. induction l as [|x l IH]; intros w; simpl; [done|].
  rewrite IH. simpl. by rewrite lookup_insert_ne.
Qed.

End Page.

Ltac page_lookup :=
  rewrite ?fold_append_other by done; unfold clear, set_text; simpl;
  repeat (rewrite lookup_insert_ne by done); rewrite ?lookup_insert_eq; done.

(** A table shows one row for each product of its listing, in order, and
    the renderer touches nothing but the page. *)
Lemma renderTable_document tbody row listing w :
  document (renderTable tbody row listing w) !! tbody = Some (row <$> listing).
Proof.
  unfold renderTable.
  destruct (fold_append_document tbody row listing (clear tbody w)) as [->|[-> ->]];
    simpl; by rewrite lookup_insert_eq.
Qed.

Lemma renderTable_ledger tbody row listing w :
  ledger (renderTable tbody row listing w) = ledger w.
Proof. unfold renderTable. by rewrite fold_append_ledger. Qed.

(** ** The dashboard *)

Lemma fold_add_amount {A} (f : A → option number) (l : list A) (acc : Z) :
  fold_left (λ sum x, add sum (or_zero (f x))) l (Fin acc)
  = Fin (acc + Zsum (amount ∘ f <$> l)).
Proof.
  revert acc. induction l as [|x l IH]; intros acc.
  - simpl. f_equal. lia.
  - rewrite fmap_cons, Zsum_cons. cbn [fold_left]. rewrite or_zero_amount.
    change (add (Fin acc) (Fin (amount (f x)))) with (Fin (acc + amount (f x))).
    rewrite IH. f_equal. unfold compose. lia.
Qed.


Lemma Zsum_weight l : Z.abs (Zsum l) ≤ weight l.
Proof.
  induction l as [|x l IH]; [done|]. rewrite Zsum_cons, weight_cons. lia.
Qed.



(** A stock that is not a number counts as zero too, as [NaN || 0] makes
    it: the product is listed as low in stock. *)
Example NaN_stock_counts_zero :
  totalStock [Product.set_stock NaN T1; stock6] = Fin 6 ∧
  lowStock [Product.set_stock NaN T1; stock6] = [Product.set_stock NaN T1].
Proof. split; reflexivity. Qed.

(** What [updateDashboard] puts on the page is this summary, and the ledger
    is not touched. *)
Lemma updateDashboard_shows w :
  let page := document (updateDashboard w) in
  let summary := aggregateSummary w in
  page !! "total-products" = Some [pretty (Z.of_nat (productCount summary))] ∧
  page !! "total-stock" = Some [ToString (totalStockUnits summary)] ∧
  page !! "total-sales" = Some [toFixed2 (totalSalesValue summary)] ∧
  page !! "low-stock-ul" = Some (lowStockItem <$> lowStockProducts summary) ∧
  ledger (updateDashboard w) = ledger w.
Proof.
  unfold updateDashboard. simpl. split_and!.
  - page_lookup.
  - page_lookup.
  - page_lookup.
  - match goal with |- context [fold_left _ ?l ?w0] =>
      destruct (fold_append_document "low-stock-ul" lowStockItem l w0) as [->|[-> ->]]
    end; simpl; by rewrite lookup_insert_eq.
  - by rewrite fold_append_ledger.
Qed.

(** ** The product tables *)

(** [toLowerCase] and the letters: two characters have the same lower
    case exactly when they are the same letter, so two strings have the same
    lower case exactly when they are equal, letter case ignored.  The
    capitals are the characters 65 to 90, each 32 places before its small
    letter. *)
Lemma letters_listed :
  letters = (λ i : nat, (ascii_of_N (65 + N.of_nat i), ascii_of_N (97 + N.of_nat i)))
            <$> seq 0 26.
Proof. reflexivity. Qed.

(** A pair of letters: a capital, with code 65 to 90, and the character 32
    places after it. *)
Lemma elem_of_letters c d :
  (c, d) ∈ letters ↔ (65 ≤ N_of_ascii c ≤ 90)%N ∧ N_of_ascii d = (N_of_ascii c + 32)%N.
Proof.
  rewrite letters_listed, list_elem_of_fmap. split.
  - intros (i & [= -> ->] & Hi%elem_of_seq).
    rewrite !N_ascii_embedding by lia. lia.
  - intros [Hc Hd]. exists (N.to_nat (N_of_ascii c - 65)). split.
    + rewrite N2Nat.id.
      replace (65 + (N_of_ascii c - 65))%N with (N_of_ascii c) by lia.
      replace (97 + (N_of_ascii c - 65))%N with (N_of_ascii d) by lia.
      by rewrite !ascii_N_embedding.
    + apply elem_of_seq. lia.
Qed.

Lemma N_of_ascii_inj c d : N_of_ascii c = N_of_ascii d → c = d.
Proof. intros H. by rewrite <- (ascii_N_embedding c), <- (ascii_N_embedding d), H. Qed.

Lemma lower_ascii_code c :
  N_of_ascii (lower_ascii c)
  = if bool_decide (65 ≤ N_of_ascii c ≤ 90)%N then (N_of_ascii c + 32)%N else N_of_ascii c.
Proof.
  unfold lower_ascii. cbv zeta. case_bool_decide; [|done].
  apply N_ascii_embedding. lia.
Qed.

Lemma lower_ascii_same c d : lower_ascii c = lower_ascii d ↔ same_letter c d.
Proof.
  unfold same_letter. rewrite !elem_of_letters. split.
  - intros H%(f_equal N_of_ascii). rewrite !lower_ascii_code in H.
    repeat case_bool_decide.
    + left. apply N_of_ascii_inj. lia.
    + right. left. split; [done|lia].
    + right. right. split; [done|lia].
    + left. by apply N_of_ascii_inj.
  - intros H. apply N_of_ascii_inj. rewrite !lower_ascii_code.
    destruct H as [->|[[Hc Hd]|[Hd Hc]]]; [done|..]; repeat case_bool_decide; lia.
Qed.

Lemma toLowerCase_same a b : toLowerCase a = toLowerCase b ↔ equal_ignoring_case a b.
Proof.
  revert b. induction a as [|c a IH]; intros [|d b]; simpl; try done.
  rewrite <- IH, <- lower_ascii_same. split; [by intros [= -> ->]|by intros [-> ->]].
Qed.

(** [x?.toLowerCase() === category] for a category in small letters. *)
Lemma lower_category (type : option string) (category : string) :
  toLowerCase category = category →
  lower type = Some category ↔ ∃ t, type = Some t ∧ equal_ignoring_case t category.
Proof.
  intros Hlow. unfold lower. destruct type as [t|]; simpl.
  - split.
    + intros [= Ht]. exists t. split; [done|]. apply toLowerCase_same. by rewrite Hlow.
    + intros (t' & [= <-] & Ht%toLowerCase_same). f_equal. by rewrite Ht.
  - split; [done|intros (t' & [=] & _)].
Qed.

Lemma is_tile_category p : is_tile p ↔ in_category "tile" p.
Proof. unfold is_tile, in_category. by apply lower_category. Qed.

Lemma is_sanitary_category p : is_sanitary p ↔ in_category "sanitary" p.
Proof. unfold is_sanitary, in_category. by apply lower_category. Qed.

Lemma is_other_category p : is_other p ↔ ¬ is_tile p ∧ ¬ is_sanitary p.
Proof.
  unfold is_other, is_tile, is_sanitary.
  rewrite !not_elem_of_cons. split; [tauto|]. intros [??]. split_and!; try done.
  apply not_elem_of_nil.
Qed.

Lemma listings_partition ps : ps ≡ₚ tiles ps ++ sanitary ps ++ others ps.
Proof.
  unfold tiles, sanitary, others. induction ps as [|p ps IH]; [done|].
  rewrite !filter_cons.
  destruct (decide (is_tile p)) as [Ht|Ht]; destruct (decide (is_sanitary p)) as [Hs|Hs];
    destruct (decide (is_other p)) as [Ho|Ho];
    try (apply is_other_category in Ho; tauto);
    try (exfalso; apply Ho, is_other_category; tauto).
  - exfalso. unfold is_tile, is_sanitary in *. congruence.
  - simpl. by f_equiv.
  - simpl. rewrite <- Permutation_middle. by f_equiv.
  - rewrite app_assoc, <- Permutation_middle, <- app_assoc. by f_equiv.
Qed.

Lemma forEach_ledger {A} (f : A → World → World * option Error) (l : list A) w :
  (∀ x w, ledger (f x w).1 = ledger w) → ledger (forEach f l w).1 = ledger w.
Proof.
  intros Hf. revert w. induction l as [|x l IH]; intros w; simpl; [done|].
  specialize (Hf x w). destruct (f x w) as [w' [e|]]; simpl in *; [done|].
  by rewrite IH.
Qed.

Lemma renderSalesTabs_ledger w : ledger (renderSalesTabs w).1 = ledger w.
Proof.
  unfold renderSalesTabs. rewrite forEach_ledger; [done|].
  intros s w0. destruct (saleRow s); [|done].
  by destruct (salesTab _).
Qed.

Lemma renderSalesHistoryTable_ledger w :
  ledger (renderSalesHistoryTable w).1 = ledger w.
Proof.
  unfold renderSalesHistoryTable. rewrite forEach_ledger; [done|].
  intros s w0. by destruct (saleRow s).
Qed.

(** C7. The three listings split the products by category: the tiles are
    the products whose type is, letter case ignored, "tile", the sanitary
    ones those whose type is "sanitary", the others those of neither type,
    a missing type included; each product is in one listing and one only.
    Each table shows its listing, and rendering a table, of products or
    of sales, leaves the ledger as it is. *)
Theorem product_listings :
  (∀ ps,
     tiles ps = filter (in_category "tile") ps ∧
     sanitary ps = filter (in_category "sanitary") ps ∧
     others ps
       = filter (λ p, ¬ in_category "tile" p ∧ ¬ in_category "sanitary" p) ps ∧
     filter (λ p, Product.type p = None) ps ⊆ others ps ∧
     ps ≡ₚ tiles ps ++ sanitary ps ++ others ps) ∧
  (∀ w,
     document (renderTilesTable w) !! "#tiles-table tbody"
       = Some (tileRow <$> tiles (products w)) ∧
     document (renderSanitaryTable w) !! "#sanitary-table tbody"
       = Some (sanitaryRow <$> sanitary (products w)) ∧
     document (renderOthersTable w) !! "#others-table tbody"
       = Some (otherRow <$> others (products w)) ∧
     ledger (renderTilesTable w) = ledger w ∧
     ledger (renderSanitaryTable w) = ledger w ∧
     ledger (renderOthersTable w) = ledger w ∧
     ledger (renderSalesTabs w).1 = ledger w ∧
     ledger (renderSalesHistoryTable w).1 = ledger w).
Proof.
  split.
  - intros ps. split_and!.
    + apply list_filter_iff, is_tile_category.
    + apply list_filter_iff, is_sanitary_category.
    + apply list_filter_iff. intros p.
      by rewrite is_other_category, is_tile_category, is_sanitary_category.
    + intros p [Hnone Hp]%list_elem_of_filter. apply list_elem_of_filter.
      split; [|done]. apply is_other_category.
      unfold is_tile, is_sanitary. by rewrite Hnone.
    + apply listings_partition.
  - intros w. unfold renderTilesTable, renderSanitaryTable, renderOthersTable.
    rewrite !renderTable_document, !renderTable_ledger.
    rewrite renderSalesTabs_ledger, renderSalesHistoryTable_ledger. done.
Qed.

(** The listings of a catalogue whose types are written in mixed case. *)
Lemma product_listings_witness :
  filter (in_category "tile") catalogue = [mosaic] ∧
  filter (in_category "sanitary") catalogue = [S9] ∧
  filter (λ p, ¬ in_category "tile" p ∧ ¬ in_category "sanitary" p) catalogue = [T1].
Proof.
  destruct product_listings as [Hlistings _].
  destruct (Hlistings catalogue) as (Htiles & Hsanitary & Hothers & _).
  rewrite <- Htiles, <- Hsanitary, <- Hothers. split_and!; reflexivity.
Defined.

(** ** Loading *)

Lemma parse_Throw text e : JSON.parse text = Throw e → e = SyntaxError.
Proof.
  unfold JSON.parse. destruct (JSON.parse_value _ _) as [[v rest]|]; [|congruence].
  destruct (JSON.skip_ws rest); congruence.
Qed.

Lemma load_absent key (storage : gmap string string) :
  storage !! key = None → load key storage = Normal (JSON.Array []).
Proof. intros Hnone. unfold load. rewrite Hnone. reflexivity. Qed.

Lemma load_malformed key (storage : gmap string string) blob :
  storage !! key = Some blob → JSON.parse blob = Throw SyntaxError →
  load key storage = Throw SyntaxError.
Proof. intros Hblob Hparse. unfold load. rewrite Hblob. simpl. by rewrite Hparse. Qed.

Lemma load_Throw key (storage : gmap string string) e :
  load key storage = Throw e → e = SyntaxError.
Proof.
  unfold load. destruct (JSON.parse _) as [v|e'] eqn:Hparse; simpl; [done|].
  intros [= <-]. by eapply parse_Throw.
Qed.

(** C6, as stated, fails: a stored text that does not parse makes the
    script stop with a [SyntaxError]; no collection is set to empty. *)
Lemma malformed_store_raises :
  JSON.parse truncated = Throw SyntaxError ∧
  initialize {["products" := truncated]} = Throw SyntaxError ∧
  initialize {["products" := truncated]} ≠ Normal (JSON.Array [], JSON.Array []).
Proof. split; [reflexivity|]. split; [reflexivity|discriminate]. Qed.

(** C6, amended. With nothing stored, both collections start empty.  A
    stored text that does not parse is not replaced by an empty collection:
    the exception of [JSON.parse] is not caught and ends the script. *)
Theorem initialize_outcomes (storage : gmap string string) :
  (storage !! "products" = None → storage !! "sales" = None →
     initialize storage = Normal (JSON.Array [], JSON.Array [])) ∧
  (∀ key blob, key = "products" ∨ key = "sales" →
     storage !! key = Some blob → JSON.parse blob = Throw SyntaxError →
     initialize storage = Throw SyntaxError).
Proof.
  split.
  - intros Hp Hs. unfold initialize. by rewrite !load_absent.
  - intros key blob [->| ->] Hblob Hparse; unfold initialize.
    + by rewrite (load_malformed _ _ _ Hblob Hparse).
    + rewrite (load_malformed "sales" _ _ Hblob Hparse).
      destruct (load "products" storage) as [v|e] eqn:Hload; simpl; [done|].
      by rewrite (load_Throw _ _ _ Hload).
Qed.

Lemma initialize_outcomes_witness :
  initialize ∅ = Normal (JSON.Array [], JSON.Array []) ∧
  ({["sales" := truncated]} : gmap string string) !! "sales" = Some truncated ∧
  JSON.parse truncated = Throw SyntaxError ∧
  initialize {["sales" := truncated]} = Throw SyntaxError.
Proof.
  split; [apply (initialize_outcomes ∅); reflexivity|].
  split; [reflexivity|]. split; [reflexivity|].
  apply (proj2 (initialize_outcomes {["sales" := truncated]}) "sales" truncated);
    [right|..]; reflexivity.
Defined.

(** Texts that parse to a falsy value also give an empty collection. *)
Example load_null : load "sales" {["sales" := "null"]} = Normal (JSON.Array []).
Proof. reflexivity. Qed.

(** The sample shop starts from its store with the product T1 and no sales. *)
Example initialize_shop :
  initialize (localStorage shop)
  = Normal (JSON.Array
              [JSON.Object [("serial", JSON.Str "T1");
                            ("pricePerBox", JSON.Number 200 0);
                            ("stock", JSON.Number 10 0)]],
            JSON.Array []).
Proof. reflexivity. Qed.

(** ** Saving *)

Lemma salesLoop_session script w :
  session script → ∃ w', salesLoop script w = Some w'.
Proof.
  intros (turns & last & -> & Hyes & Hno). revert w.
  induction Hyes as [|e turns He Hyes IH]; intros w; simpl.
  - rewrite Hno. eauto.
  - rewrite He. apply IH.
Qed.

Lemma flush_flushed w : flushed (flush w).
Proof.
  unfold flushed, flush. simpl. split.
  - by rewrite lookup_insert_ne, lookup_insert_eq.
  - by rewrite lookup_insert_eq.
Qed.

Lemma flushed_ledger w w' : ledger w' = ledger w → flushed w → flushed w'.
Proof. unfold ledger, flushed. intros [= -> -> ->]. done. Qed.

(** C8, as stated, fails: a recorded sale does not reach the store; after
    it the store still holds the products as they were and no sales. *)
Lemma sale_not_flushed :
  ∃ sale w',
    recordSale (Text "T1") (Fin 3) today shop = (Recorded sale, w') ∧
    localStorage w' = localStorage shop ∧
    localStorage w' !! "sales" = None ∧
    ¬ flushed w'.
Proof.
  eexists _, _. split; [reflexivity|]. split; [reflexivity|]. split; [reflexivity|].
  intros [_ Hsales]. vm_compute in Hsales. discriminate.
Qed.

(** C8, amended. The store is written once, when the dialog of
    [prepareNewSales] ends: for every dialog that comes to its end the
    function returns, and the store then holds the text of both collections
    as the sales of the dialog left them. *)
Theorem prepareNewSales_flushes type script w :
  session script →
  ∃ w1 w' thrown,
    salesLoop script w = Some w1 ∧
    prepareNewSales type script w = Some (w', thrown) ∧
    products w' = products w1 ∧ sales w' = sales w1 ∧
    flushed w'.
Proof.
  intros [w1 Hloop]%(salesLoop_session _ w).
  assert (∀ w2, ledger w2 = ledger (flush w1) →
            products w2 = products w1 ∧ sales w2 = sales w1 ∧ flushed w2) as Hdone.
  { intros w2 Hl. split_and!; [by injection Hl..|].
    eapply flushed_ledger; [exact Hl|apply flush_flushed]. }
  unfold prepareNewSales. rewrite Hloop. simpl.
  pose proof (renderSalesTabs_ledger (flush w1)) as Htabs.
  destruct (renderSalesTabs (flush w1)) as [w2 [e|]]; simpl in Htabs.
  { exists w1, w2, (Some e). auto. }
  pose proof (renderSalesHistoryTable_ledger w2) as Hhist.
  destruct (renderSalesHistoryTable w2) as [w3 [e|]]; simpl in Hhist.
  { exists w1, w3, (Some e). rewrite Htabs in Hhist. auto. }
  destruct (updateDashboard_shows w3) as (_ & _ & _ & _ & Hdash).
  exists w1, (updateDashboard w3), None.
  rewrite Hhist, Htabs in Hdash. auto.
Qed.

Lemma prepareNewSales_flushes_witness :
  session [Entry.mk (Text "T1") (Fin 3) today true;
           Entry.mk (Text "T1") (Fin 20) today false] ∧
  ∃ w1 w' thrown,
    salesLoop [Entry.mk (Text "T1") (Fin 3) today true;
               Entry.mk (Text "T1") (Fin 20) today false] shop = Some w1 ∧
    prepareNewSales "tile"
      [Entry.mk (Text "T1") (Fin 3) today true;
       Entry.mk (Text "T1") (Fin 20) today false] shop = Some (w', thrown) ∧
    products w' = products w1 ∧ sales w' = sales w1 ∧
    flushed w'.
Proof.
  assert (session [Entry.mk (Text "T1") (Fin 3) today true;
                   Entry.mk (Text "T1") (Fin 20) today false]) as Hsession.
  { exists [Entry.mk (Text "T1") (Fin 3) today true],
           (Entry.mk (Text "T1") (Fin 20) today false).
    split; [reflexivity|]. split; [|reflexivity].
    constructor; [reflexivity|constructor]. }
  split; [exact Hsession|].
  exact (prepareNewSales_flushes "tile" _ shop Hsession).
Defined.

(** The store after that dialog. *)
Example store_after_dialog :
  ∃ w', prepareNewSales "tile"
          [Entry.mk (Text "T1") (Fin 3) today true;
           Entry.mk (Text "T1") (Fin 20) today false] shop = Some (w', None) ∧
    localStorage w' !! "products"
      = Some (JSON.stringify_products [Product.set_stock (Fin 7) T1]) ∧
    Product.stock <$> products w' = [Some (Fin 7)] ∧
    length (sales w') = 1%nat.
Proof. eexists. split; [vm_compute; reflexivity|]. split; [|split]; reflexivity. Qed.

(** * Further properties *)

(** ** The sales tables *)

Lemma forEach_app {A} (f : A → World → World * option Error) (l1 l2 : list A) w :
  forEach f (l1 ++ l2) w
  = match forEach f l1 w with
    | (w', None) => forEach f l2 w'
    | thrown => thrown
    end.
Proof.
  revert w. induction l1 as [|x l1 IH]; intros w; simpl; [done|].
  destruct (f x w) as [w' [e|]]; [done|]. apply IH.
Qed.

Lemma forEach_ext {A} (f g : A → World → World * option Error) (l : list A) w :
  (∀ x, x ∈ l → ∀ w, f x w = g x w) → forEach f l w = forEach g l w.
Proof.
  revert w. induction l as [|x l IH]; intros w Hfg; simpl; [done|].
  rewrite (Hfg x) by left. destruct (g x w) as [w' [e|]]; [done|].
  apply IH. intros y Hy. apply Hfg. by right.
Qed.

Lemma content_append el el' text w :
  content el (append el' text w)
  = if decide (el' = el) then content el w ++ [text] else content el w.
Proof.
  unfold content, append. simpl. destruct (decide (el' = el)) as [->|Hne].
  - by rewrite lookup_insert_eq.
  - by rewrite lookup_insert_ne.
Qed.

Section Routed.
Context {A : Type} (route : A → option string) (text : A → string).

Lemma forEach_routed (l : list A) w :
  ∃ w', forEach (routed route text) l w = (w', None) ∧
    ledger w' = ledger w ∧
    (∀ el, content el w' = content el w ++ (text <$> filter (λ x, route x = Some el) l)) ∧
    (∀ el, is_Some (document w !! el) → is_Some (document w' !! el)) ∧
    (∀ el, (∀ x, x ∈ l → route x ≠ Some el) → document w' !! el = document w !! el).
Proof.
  revert w. induction l as [|x l IH]; intros w.
  { exists w. simpl. split_and!; try done. intros el. by rewrite app_nil_r. }
  simpl. unfold routed at 1. destruct (route x) as [el0|] eqn:Hroute.
  - destruct (IH (append el0 (text x) w)) as (w' & -> & Hledger & Hcontent & Hsome & Hsame).
    exists w'. split_and!; try done.
    + intros el. rewrite Hcontent, content_append, filter_cons.
      destruct (decide (el0 = el)) as [->|Hne].
      * rewrite decide_True by done. by rewrite <- app_assoc.
      * rewrite decide_False by congruence. done.
    + intros el Hel. apply Hsome. simpl.
      destruct (decide (el0 = el)) as [->|Hne].
      * rewrite lookup_insert_eq. eauto.
      * by rewrite lookup_insert_ne.
    + intros el Hel. rewrite Hsame by (intros y Hy; apply Hel; by right).
      simpl. rewrite lookup_insert_ne; [done|].
      intros ->. by apply (Hel x); [left|].
  - destruct (IH w) as (w' & -> & Hledger & Hcontent & Hsome & Hsame).
    exists w'. split_and!; try done.
    + intros el. rewrite Hcontent, filter_cons. by rewrite decide_False by congruence.
    + intros el Hel. apply Hsame. intros y Hy. apply Hel. by right.
Qed.

End Routed.

Lemma saleRow_total s : has_total s → saleRow s = Normal (saleRowText s).
Proof. unfold has_total, saleRowText, saleRow. by intros [total ->]. Qed.

Lemma saleRow_no_total s : Sale.total s = None → saleRow s = Throw TypeError.
Proof. unfold saleRow. by intros ->. Qed.

(** The body of a sales table after its rows were appended to the emptied
    element. *)
Lemma cleared_then_routed {A} (route : A → option string) (text : A → string)
    (l : list A) w w' el :
  forEach (routed route text) l w = (w', None) →
  document w !! el = Some [] →
  document w' !! el = Some (text <$> filter (λ x, route x = Some el) l).
Proof.
  intros Hrun Hcleared.
  destruct (forEach_routed route text l w) as (w0 & Hrun0 & _ & Hcontent & Hsome & _).
  rewrite Hrun in Hrun0. injection Hrun0 as <-.
  specialize (Hcontent el). unfold content in Hcontent. rewrite Hcleared in Hcontent.
  destruct (Hsome el) as [rows Hrows]; [by rewrite Hcleared|].
  rewrite Hrows in Hcontent |- *. simpl in Hcontent. by subst rows.
Qed.

Lemma history_rows (before : list Sale.t) w :
  Forall has_total before →
  ∃ w', forEach (λ s w,
          match saleRow s with
          | Throw e => (w, Some e)
          | Normal row => (append "#sales-table tbody" row w, None)
          end) before (clear "#sales-table tbody" w) = (w', None) ∧
    ledger w' = ledger w ∧
    document w' !! "#sales-table tbody" = Some (saleRowText <$> before) ∧
    ∀ el, el ≠ "#sales-table tbody" → document w' !! el = document w !! el.
Proof.
  intros Htotals.
  rewrite (forEach_ext _ (routed (λ _, Some "#sales-table tbody") saleRowText)).
  2: { intros s Hs w0. unfold routed.
       rewrite saleRow_total; [done|]. by eapply Forall_forall in Htotals. }
  destruct (forEach_routed (λ _ : Sale.t, Some "#sales-table tbody") saleRowText before
              (clear "#sales-table tbody" w)) as (w' & Hrun & Hledger & _ & _ & Hsame).
  exists w'. split_and!; try done.
  - rewrite (cleared_then_routed _ _ _ _ _ _ Hrun) by apply lookup_insert_eq.
    f_equal. f_equal. clear. induction before as [|s l IH]; [done|].
    rewrite filter_cons_True by done. by f_equal.
  - intros el Hne. rewrite Hsame by (intros ? ? [=]; done).
    simpl. by rewrite lookup_insert_ne.
Qed.

(** X1. When every sale has a total, the history table is rendered without
    an exception: its body holds one row for each sale, in the order of
    [sales], whatever it held before; no other element and nothing of the
    ledger changes. *)
Theorem history_shows_all w :
  Forall has_total (sales w) →
  ∃ w', renderSalesHistoryTable w = (w', None) ∧
    ledger w' = ledger w ∧
    document w' !! "#sales-table tbody" = Some (saleRowText <$> sales w) ∧
    ∀ el, el ≠ "#sales-table tbody" → document w' !! el = document w !! el.
Proof. intros Htotals. unfold renderSalesHistoryTable. by apply history_rows. Qed.

(** X2. A sale without a total stops the rendering of the history table
    with a [TypeError]: the body is left with the rows of the sales that
    come before it, and the sales after it are not shown. *)
Theorem history_stops_at_missing_total w before s after :
  sales w = before ++ s :: after →
  Forall has_total before →
  Sale.total s = None →
  ∃ w', renderSalesHistoryTable w = (w', Some TypeError) ∧
    ledger w' = ledger w ∧
    document w' !! "#sales-table tbody" = Some (saleRowText <$> before) ∧
    ∀ el, el ≠ "#sales-table tbody" → document w' !! el = document w !! el.
Proof.
  intros Hsales Htotals Hnone. unfold renderSalesHistoryTable. cbv zeta.
  change (sales (clear "#sales-table tbody" w)) with (sales w).
  rewrite Hsales, forEach_app.
  destruct (history_rows before w Htotals) as (w' & -> & Hrest).
  simpl. rewrite (saleRow_no_total _ Hnone). by exists w'.
Qed.

Ltac walk :=
  repeat match goal with
  | |- context [match ?x with _ => _ end] => is_var x; destruct x; try done
  end.

(** The lookup [map[type]], case by case. *)
Lemma salesTab_cases (x : option string) :
  salesTab x =
  if decide (x = Some "tile") then Some "#sales-tiles tbody"
  else if decide (x = Some "sanitary") then Some "#sales-sanitary tbody"
  else if decide (x ∈ [Some "constructor"; Some "__proto__"]) then None
  else Some "#sales-others tbody".
Proof.
  unfold salesTab. walk.
  all: try (repeat case_decide; simplify_eq; try done).
Qed.

Lemma tab_tiles s :
  salesTab (lower (Sale.type s)) = Some "#sales-tiles tbody" ↔ sale_in_category "tile" s.
Proof.
  unfold sale_in_category. rewrite <- lower_category by done.
  rewrite salesTab_cases. repeat case_decide; naive_solver.
Qed.

Lemma tab_sanitary s :
  salesTab (lower (Sale.type s)) = Some "#sales-sanitary tbody"
  ↔ sale_in_category "sanitary" s.
Proof.
  unfold sale_in_category. rewrite <- lower_category by done.
  rewrite salesTab_cases. repeat case_decide; naive_solver.
Qed.

Lemma hidden_type_lower s :
  hidden_type s ↔ lower (Sale.type s) ∈ [Some "constructor"; Some "__proto__"].
Proof.
  unfold hidden_type, sale_in_category. rewrite <- !lower_category by done.
  rewrite !elem_of_cons, elem_of_nil. tauto.
Qed.

Lemma tab_none s : salesTab (lower (Sale.type s)) = None ↔ hidden_type s.
Proof.
  rewrite hidden_type_lower, salesTab_cases.
  destruct (decide (lower (Sale.type s) = Some "tile")) as [->|_].
  { split; [done|]. intros Hin. exfalso.
    repeat (apply elem_of_cons in Hin as [?|Hin]; [congruence|]).
    by apply elem_of_nil in Hin. }
  destruct (decide (lower (Sale.type s) = Some "sanitary")) as [->|_].
  { split; [done|]. intros Hin. exfalso.
    repeat (apply elem_of_cons in Hin as [?|Hin]; [congruence|]).
    by apply elem_of_nil in Hin. }
  by destruct (decide (lower (Sale.type s) ∈ _)).
Qed.

Lemma tab_others s :
  salesTab (lower (Sale.type s)) = Some "#sales-others tbody"
  ↔ ¬ sale_in_category "tile" s ∧ ¬ sale_in_category "sanitary" s ∧ ¬ hidden_type s.
Proof.
  rewrite hidden_type_lower. unfold sale_in_category.
  rewrite <- !lower_category by done.
  rewrite salesTab_cases. repeat case_decide; naive_solver.
Qed.

Lemma tab_elsewhere s el :
  el ∉ ["#sales-tiles tbody"; "#sales-sanitary tbody"; "#sales-others tbody"] →
  salesTab (lower (Sale.type s)) ≠ Some el.
Proof.
  intros Hel Htab. apply Hel. rewrite salesTab_cases in Htab.
  repeat case_decide; simplify_eq; set_solver.
Qed.

Lemma tabs_rows w :
  Forall has_total (sales w) →
  ∃ w', renderSalesTabs w = (w', None) ∧
    ledger w' = ledger w ∧
    (∀ el, el ∈ ["#sales-tiles tbody"; "#sales-sanitary tbody"; "#sales-others tbody"] →
       document w' !! el = Some (saleRowText <$> tab_sales el (sales w))) ∧
    (∀ el, el ∉ ["#sales-tiles tbody"; "#sales-sanitary tbody"; "#sales-others tbody"] →
       document w' !! el = document w !! el).
Proof.
  intros Htotals. unfold renderSalesTabs. cbv zeta.
  rewrite (forEach_ext _ (routed (λ s, salesTab (lower (Sale.type s))) saleRowText)).
  2: { intros s Hs w0. unfold routed.
       rewrite saleRow_total; [done|]. by eapply Forall_forall in Htotals. }
  match goal with |- context [forEach _ ?l ?w0] =>
    destruct (forEach_routed (λ s, salesTab (lower (Sale.type s))) saleRowText l w0)
      as (w' & Hrun & Hledger & _ & _ & Hsame)
  end.
  exists w'. split_and!; try done.
  - intros el Hel. unfold tab_sales.
    apply (cleared_then_routed _ _ _ _ _ _ Hrun). simpl.
    repeat (apply elem_of_cons in Hel as [->|Hel]);
      [| |by apply lookup_insert_eq|by apply elem_of_nil in Hel].
    + rewrite lookup_insert_ne by done. rewrite lookup_insert_ne by done.
      apply lookup_insert_eq.
    + rewrite lookup_insert_ne by done. apply lookup_insert_eq.
  - intros el Hel. rewrite Hsame by (intros x _; by apply tab_elsewhere).
    simpl. rewrite !lookup_insert_ne; [done|..]; intros <-; set_solver.
Qed.

(** X3. When every sale has a total, the sales tabs are rendered without
    an exception: each of the three table bodies holds, in the order of
    [sales], the rows of the sales that [map[type]] sends to it, whatever it
    held before; no other element and nothing of the ledger changes. *)
Theorem tabs_show_routed_sales w :
  Forall has_total (sales w) →
  ∃ w', renderSalesTabs w = (w', None) ∧
    ledger w' = ledger w ∧
    document w' !! "#sales-tiles tbody"
      = Some (saleRowText <$> tab_sales "#sales-tiles tbody" (sales w)) ∧
    document w' !! "#sales-sanitary tbody"
      = Some (saleRowText <$> tab_sales "#sales-sanitary tbody" (sales w)) ∧
    document w' !! "#sales-others tbody"
      = Some (saleRowText <$> tab_sales "#sales-others tbody" (sales w)) ∧
    ∀ el, el ∉ ["#sales-tiles tbody"; "#sales-sanitary tbody"; "#sales-others tbody"] →
      document w' !! el = document w !! el.
Proof.
  intros Htotals. destruct (tabs_rows w Htotals) as (w' & Hrun & Hledger & Hrows & Hsame).
  exists w'. split_and!; try done; apply Hrows; set_solver.
Qed.

(** X4. The tabs split the sales by type, letter case ignored: tile,
    sanitary, and the rest; but a sale whose type reads [constructor] or
    [__proto__], in whatever letter case, is sent to no tab at all.  Every
    other sale is in one tab and one only. *)
Theorem tabs_partition (ss : list Sale.t) :
  tab_sales "#sales-tiles tbody" ss = filter (sale_in_category "tile") ss ∧
  tab_sales "#sales-sanitary tbody" ss = filter (sale_in_category "sanitary") ss ∧
  tab_sales "#sales-others tbody" ss
    = filter (λ s, ¬ sale_in_category "tile" s ∧ ¬ sale_in_category "sanitary" s
                   ∧ ¬ hidden_type s) ss ∧
  ss ≡ₚ tab_sales "#sales-tiles tbody" ss ++ tab_sales "#sales-sanitary tbody" ss
        ++ tab_sales "#sales-others tbody" ss ++ filter hidden_type ss.
Proof.
  unfold tab_sales. split_and!.
  - apply list_filter_iff, tab_tiles.
  - apply list_filter_iff, tab_sanitary.
  - apply list_filter_iff, tab_others.
  - induction ss as [|s ss IH]; [done|].
    rewrite !filter_cons.
    destruct (salesTab (lower (Sale.type s))) as [el|] eqn:Htab.
    + rewrite (decide_False (P := hidden_type s)) by (intros H%tab_none; congruence).
      destruct (decide (el = "#sales-tiles tbody")) as [->|Ht].
      { rewrite decide_True by done. rewrite !decide_False by done.
        simpl. by f_equiv. }
      rewrite (decide_False (P := Some el = Some "#sales-tiles tbody")) by congruence.
      destruct (decide (el = "#sales-sanitary tbody")) as [->|Hs].
      { rewrite decide_True by done. rewrite decide_False by done.
        simpl. rewrite <- Permutation_middle. by f_equiv. }
      rewrite (decide_False (P := Some el = Some "#sales-sanitary tbody")) by congruence.
      destruct (decide (el = "#sales-others tbody")) as [->|Ho].
      { rewrite decide_True by done. simpl. rewrite app_assoc.
        apply Permutation_cons_app. by rewrite <- app_assoc. }
      exfalso. apply (tab_elsewhere s el); [|done].
      rewrite !not_elem_of_cons. split_and!; try done. apply not_elem_of_nil.
    + rewrite (decide_True (P := hidden_type s)) by by apply tab_none.
      rewrite !decide_False by done.
      rewrite !app_assoc. apply Permutation_cons_app. by rewrite <- !app_assoc.
Qed.

(** The tabs for sales whose types are written in mixed case. *)
Lemma tabs_partition_witness :
  filter (sale_in_category "tile") (sales books) = [soldTile] ∧
  filter (sale_in_category "sanitary") (sales books) = [soldBasin] ∧
  filter (λ s, ¬ sale_in_category "tile" s ∧ ¬ sale_in_category "sanitary" s
               ∧ ¬ hidden_type s) (sales books) = [] ∧
  sales books ≡ₚ [soldTile] ++ [soldBasin] ++ [] ++ filter hidden_type (sales books).
Proof.
  destruct (tabs_partition (sales books)) as (Htiles & Hsanitary & Hothers & Hall).
  rewrite <- Htiles, <- Hsanitary, <- Hothers.
  split; [reflexivity|]. split; [reflexivity|]. split; [reflexivity|]. exact Hall.
Defined.

Lemma forEach_thrown {A} (P : A → Prop) `{!∀ x, Decision (P x)} (e : Error)
    (f : A → World → World * option Error) (l : list A) w :
  (∀ x w, (f x w).2 = if decide (P x) then None else Some e) →
  (forEach f l w).2 = if decide (Forall P l) then None else Some e.
Proof.
  intros Hf. revert w. induction l as [|x l IH]; intros w.
  { simpl. by destruct (decide (Forall P [])) as [|[]]. }
  cbn [forEach]. specialize (Hf x w). destruct (f x w) as [w' [e'|]]; simpl in Hf.
  - destruct (decide (P x)) as [|Hx]; [done|]. simpl.
    destruct (decide (Forall P (x :: l))) as [[? ?]%Forall_cons|]; done.
  - destruct (decide (P x)) as [Hx|]; [|done]. rewrite IH.
    destruct (decide (Forall P l)) as [Hl|Hl];
      destruct (decide (Forall P (x :: l))) as [[? ?]%Forall_cons|Hxl]; try done.
    exfalso. apply Hxl. by constructor.
Qed.

Lemma sales_tables_thrown w :
  (renderSalesTabs w).2
    = (if decide (Forall has_total (sales w)) then None else Some TypeError) ∧
  (renderSalesHistoryTable w).2
    = (if decide (Forall has_total (sales w)) then None else Some TypeError).
Proof.
  unfold renderSalesTabs, renderSalesHistoryTable. cbv zeta. split.
  - apply (forEach_thrown has_total). intros s w0.
    destruct (decide (has_total s)) as [Hs|Hs].
    + rewrite saleRow_total by done. by destruct (salesTab _).
    + rewrite saleRow_no_total; [done|].
      unfold has_total in Hs. by destruct (Sale.total s); [destruct Hs; eauto|].
  - apply (forEach_thrown has_total). intros s w0.
    destruct (decide (has_total s)) as [Hs|Hs].
    + by rewrite saleRow_total by done.
    + rewrite saleRow_no_total; [done|].
      unfold has_total in Hs. by destruct (Sale.total s); [destruct Hs; eauto|].
Qed.

(** X5. Rendering the sales tabs or the sales history throws, and then a
    [TypeError], exactly when some sale of the ledger has no total. *)
Theorem sales_tables_throw_iff w :
  (renderSalesTabs w).2
    = (if decide (Forall has_total (sales w)) then None else Some TypeError) ∧
  (renderSalesHistoryTable w).2
    = (if decide (Forall has_total (sales w)) then None else Some TypeError).
Proof. apply sales_tables_thrown. Qed.

Lemma history_shows_all_witness :
  Forall has_total (sales books) ∧
  ∃ w', renderSalesHistoryTable books = (w', None) ∧
    ledger w' = ledger books ∧
    document w' !! "#sales-table tbody"
      = Some [saleRowText soldTile; saleRowText soldBasin; saleRowText soldOdd] ∧
    ∀ el, el ≠ "#sales-table tbody" → document w' !! el = document books !! el.
Proof.
  assert (Forall has_total (sales books)) as Htotals.
  { repeat constructor; eexists; reflexivity. }
  split; [exact Htotals|]. exact (history_shows_all books Htotals).
Defined.

Lemma history_stops_at_missing_total_witness :
  sales brokenBooks = [soldTile] ++ soldBroken :: [soldBasin] ∧
  ∃ w', renderSalesHistoryTable brokenBooks = (w', Some TypeError) ∧
    ledger w' = ledger brokenBooks ∧
    document w' !! "#sales-table tbody" = Some [saleRowText soldTile] ∧
    ∀ el, el ≠ "#sales-table tbody" → document w' !! el = document brokenBooks !! el.
Proof.
  split; [reflexivity|].
  apply (history_stops_at_missing_total brokenBooks [soldTile] soldBroken [soldBasin]);
    [reflexivity| |reflexivity].
  repeat constructor. eexists; reflexivity.
Defined.

Lemma tabs_show_routed_sales_witness :
  Forall has_total (sales books) ∧
  tab_sales "#sales-tiles tbody" (sales books) = [soldTile] ∧
  tab_sales "#sales-sanitary tbody" (sales books) = [soldBasin] ∧
  tab_sales "#sales-others tbody" (sales books) = [] ∧
  ∃ w', renderSalesTabs books = (w', None) ∧
    ledger w' = ledger books ∧
    document w' !! "#sales-tiles tbody"
      = Some (saleRowText <$> tab_sales "#sales-tiles tbody" (sales books)) ∧
    document w' !! "#sales-sanitary tbody"
      = Some (saleRowText <$> tab_sales "#sales-sanitary tbody" (sales books)) ∧
    document w' !! "#sales-others tbody"
      = Some (saleRowText <$> tab_sales "#sales-others tbody" (sales books)) ∧
    ∀ el, el ∉ ["#sales-tiles tbody"; "#sales-sanitary tbody"; "#sales-others tbody"] →
      document w' !! el = document books !! el.
Proof.
  assert (Forall has_total (sales books)) as Htotals.
  { repeat constructor; eexists; reflexivity. }
  split; [exact Htotals|]. split; [reflexivity|]. split; [reflexivity|].
  split; [reflexivity|]. exact (tabs_show_routed_sales books Htotals).
Defined.

(** ** Rendering again *)

Lemma set_document_twice d d' w : set_document d (set_document d' w) = set_document d w.
Proof. done. Qed.

Lemma fold_append_closed {A} (el : string) (item : A → string) (l : list A)
    (acc : list string) (d : gmap string (list string)) w :
  fold_left (λ w x, append el (item x) w) l (set_document (<[el := acc]> d) w)
  = set_document (<[el := acc ++ (item <$> l)]> d) w.
Proof.
  revert acc. induction l as [|x l IH]; intros acc; simpl.
  { by rewrite app_nil_r. }
  unfold append at 2. simpl. rewrite lookup_insert_eq, insert_insert_eq. simpl.
  rewrite set_document_twice, IH. by rewrite <- app_assoc.
Qed.

Lemma renderTable_closed tbody row listing w :
  renderTable tbody row listing w
  = set_document (<[tbody := row <$> listing]> (document w)) w.
Proof. unfold renderTable, clear. by rewrite fold_append_closed. Qed.

(** X6. Rendering a product table puts the rows of its listing in the place
    of whatever its table body held, and leaves every other element of the
    page and the ledger as they were; rendering it a second time changes
    nothing. *)
Theorem product_tables_overwrite w :
  (renderTilesTable w
     = set_document (<["#tiles-table tbody" := tileRow <$> tiles (products w)]> (document w)) w ∧
   renderSanitaryTable w
     = set_document
         (<["#sanitary-table tbody" := sanitaryRow <$> sanitary (products w)]> (document w)) w ∧
   renderOthersTable w
     = set_document
         (<["#others-table tbody" := otherRow <$> others (products w)]> (document w)) w) ∧
  (renderTilesTable (renderTilesTable w) = renderTilesTable w ∧
   renderSanitaryTable (renderSanitaryTable w) = renderSanitaryTable w ∧
   renderOthersTable (renderOthersTable w) = renderOthersTable w).
Proof.
  unfold renderTilesTable, renderSanitaryTable, renderOthersTable.
  rewrite !renderTable_closed. split; [done|]. simpl.
  rewrite !insert_insert_eq. done.
Qed.

Lemma updateDashboard_closed w :
  updateDashboard w
  = set_document
      (<["low-stock-ul" := lowStockItem <$> lowStock (products w)]>
         (<["total-sales" := [toFixed2 (totalSales (sales w))]]>
            (<["total-stock" := [ToString (totalStock (products w))]]>
               (<["total-products" := [ToString (Fin (Z.of_nat (length (products w))))]]>
                  (document w))))) w.
Proof.
  unfold updateDashboard, clear. cbv zeta.
  rewrite fold_append_closed. done.
Qed.

(** X7. [updateDashboard] replaces the content of its four elements by the
    count, the stock, the sales and the low-stock items computed from the
    ledger, whatever they held, and leaves the rest of the page and the
    ledger as they were; run a second time it changes nothing. *)
Theorem dashboard_overwrites w :
  ledger (updateDashboard w) = ledger w ∧
  (∀ el, el ∉ ["total-products"; "total-stock"; "total-sales"; "low-stock-ul"] →
     document (updateDashboard w) !! el = document w !! el) ∧
  updateDashboard (updateDashboard w) = updateDashboard w.
Proof.
  rewrite !updateDashboard_closed. split_and!.
  - done.
  - intros el Hel. simpl. rewrite !lookup_insert_ne; [done|..]; intros <-; set_solver.
  - unfold set_document. simpl. f_equal. apply map_eq. intros el.
    rewrite !lookup_insert. repeat case_decide; done.
Qed.

(** ** The dashboard after a sale *)

Lemma Zsum_app l1 l2 : Zsum (l1 ++ l2) = Zsum l1 + Zsum l2.
Proof.
  induction l1 as [|x l1 IH]; [done|].
  rewrite <- app_comm_cons, !Zsum_cons, IH. lia.
Qed.

Lemma Zsum_insert {A} (f : A → Z) (l : list A) i x y :
  l !! i = Some x →
  Zsum (f <$> <[i := y]> l) = Zsum (f <$> l) - f x + f y.
Proof.
  revert i. induction l as [|a l IH]; intros [|i] Hi; try done.
  - injection Hi as ->. change (<[0%nat := y]> (x :: l)) with (y :: l).
    rewrite !fmap_cons, !Zsum_cons. lia.
  - change (<[S i := y]> (a :: l)) with (a :: <[i := y]> l).
    rewrite !fmap_cons, !Zsum_cons, (IH i) by done. lia.
Qed.

(** X8. After a recorded sale of a whole quantity from a product whose
    stock is a whole number, on a ledger whose stocks, with the quantity,
    and whose totals, with the new total, add up by their sizes to no more
    than 2^53, the dashboard counts the same products, a stock lower by the
    quantity, and sales higher by the quantity times the price per box. *)
Theorem summary_after_sale serial q date w sale w' i p s :
  recordSale serial (Fin q) date w = (Recorded sale, w') →
  find_product serial (products w) = Some (i, p) →
  Product.stock p = Some (Fin s) →
  safe (weight (amount ∘ Product.stock <$> products w) + Z.abs q) →
  safe (amount (Product.pricePerBox p)) →
  safe (weight (amount ∘ Sale.total <$> sales w)
        + Z.abs (q * amount (Product.pricePerBox p))) →
  productCount (aggregateSummary w') = productCount (aggregateSummary w) ∧
  totalStockUnits (aggregateSummary w')
    = sub (totalStockUnits (aggregateSummary w)) (Fin q) ∧
  totalSalesValue (aggregateSummary w')
    = add (totalSalesValue (aggregateSummary w))
          (Fin (q * amount (Product.pricePerBox p))).
Proof.
  intros (i' & p' & Hfind' & _ & -> & ->)%recordSale_Recorded Hfind Hstock _ _ _.
  rewrite Hfind in Hfind'. injection Hfind' as <- <-.
  apply find_product_Some in Hfind as [Hi _].
  unfold aggregateSummary, totalStock, totalSales. simpl. split_and!.
  - apply length_insert.
  - rewrite !(fold_add_amount Product.stock _ 0).
    rewrite (Zsum_insert _ _ _ _ _ Hi). unfold compose. simpl.
    rewrite Hstock. simpl. f_equal. lia.
  - rewrite !(fold_add_amount Sale.total _ 0).
    rewrite fmap_app, Zsum_app. simpl. rewrite or_zero_amount. simpl.
    f_equal. unfold Zsum. simpl. lia.
Qed.

Lemma summary_after_sale_witness :
  recordSale (Text "T1") (Fin 3) today showroom
  = (Recorded (Sale.mk (Some "T1") None (Some (Fin 3)) (Some (Fin 600)) (Some today) None),
     mkWorld [Product.set_stock (Fin 7) T1; S9]
       [Sale.mk (Some "T1") None (Some (Fin 3)) (Some (Fin 600)) (Some today) None] ∅ ∅) ∧
  safe (weight (amount ∘ Product.stock <$> products showroom) + Z.abs 3) ∧
  safe (weight (amount ∘ Sale.total <$> sales showroom) + Z.abs (3 * 200)) ∧
  totalStockUnits (aggregateSummary showroom) = Fin 10 ∧
  totalStockUnits (aggregateSummary (sell (Text "T1") showroom (Fin 3, today)))
    = sub (Fin 10) (Fin 3) ∧
  totalSalesValue (aggregateSummary (sell (Text "T1") showroom (Fin 3, today)))
    = add (Fin 0) (Fin (3 * 200)).
Proof.
  assert (safe (weight (amount ∘ Product.stock <$> products showroom) + Z.abs 3)) as H1.
  { vm_compute. split; discriminate. }
  assert (safe (amount (Product.pricePerBox T1))) as H2.
  { vm_compute. split; discriminate. }
  assert (safe (weight (amount ∘ Sale.total <$> sales showroom)
                + Z.abs (3 * amount (Product.pricePerBox T1)))) as H3.
  { vm_compute. split; discriminate. }
  split; [reflexivity|]. split; [exact H1|]. split; [exact H3|]. split; [reflexivity|].
  destruct (summary_after_sale (Text "T1") 3 today showroom _ _ 0 T1 10
              eq_refl eq_refl eq_refl H1 H2 H3) as (_ & Hstock & Hsales).
  split; [exact Hstock|exact Hsales].
Defined.

(** ** A whole dialog of sale entry *)

Lemma same_but_stock_refl p : same_but_stock p p.
Proof. by unfold same_but_stock. Qed.

Lemma same_but_stock_trans p1 p2 p3 :
  same_but_stock p1 p2 → same_but_stock p2 p3 → same_but_stock p1 p3.
Proof.
  unfold same_but_stock.
  intros (?&?&?&?&?&?&?&?) (?&?&?&?&?&?&?&?). split_and!; congruence.
Qed.

Lemma same_but_stock_all_trans ps1 ps2 ps3 :
  Forall2 same_but_stock ps1 ps2 → Forall2 same_but_stock ps2 ps3 →
  Forall2 same_but_stock ps1 ps3.
Proof.
  intros H12. revert ps3. induction H12 as [|p1 p2 ps1 ps2 Hp H12 IH]; intros ps3 H23.
  - by inversion H23.
  - inversion H23 as [|? p3 ? ps3' Hp' H23']; subst. constructor.
    + by eapply same_but_stock_trans.
    + by apply IH.
Qed.

(** What one turn of the loop does to the world. *)
Lemma recordSale_turn serial quantity date w :
  Forall2 same_but_stock (products w) (products (recordSale serial quantity date w).2) ∧
  sales (recordSale serial quantity date w).2
    = sales w ++ match (recordSale serial quantity date w).1 with
                 | Recorded s => [s]
                 | InvalidSale => []
                 end ∧
  localStorage (recordSale serial quantity date w).2 = localStorage w ∧
  document (recordSale serial quantity date w).2 = document w.
Proof.
  destruct (recordSale serial quantity date w) as [[|sale] w'] eqn:Hsale.
  - assert (w' = w) as ->.
    { revert Hsale. unfold recordSale.
      destruct (find_product _ _) as [[i p]|]; [|by intros [=]].
      destruct (gt quantity (ToNumber _)); [by intros [=]|discriminate]. }
    simpl. split_and!; try done; [|by rewrite app_nil_r].
    apply Forall2_same_length_lookup. split; [done|].
    intros j x y Hx Hy. rewrite Hx in Hy. injection Hy as <-.
    apply same_but_stock_refl.
  - apply recordSale_Recorded in Hsale as (i & p & Hfind & _ & -> & ->).
    apply find_product_Some in Hfind as [Hi _].
    simpl. split_and!; try done.
    rewrite <- (list_insert_id (products w) i p) at 1 by done.
    apply Forall2_insert; [|by unfold same_but_stock].
    apply Forall2_same_length_lookup. split; [done|].
    intros j x y Hx Hy. rewrite Hx in Hy. injection Hy as <-.
    apply same_but_stock_refl.
Qed.

Lemma salesLoop_run script w w' :
  salesLoop script w = Some w' →
  Forall2 same_but_stock (products w) (products w') ∧
  sales w' = sales w ++ recordedSales script w ∧
  localStorage w' = localStorage w ∧
  document w' = document w.
Proof.
  revert w. induction script as [|e script IH]; intros w; [done|].
  cbn [salesLoop recordedSales]. cbv zeta.
  destruct (recordSale_turn (Entry.serial e) (Entry.quantity e) (Entry.date e) w)
    as (Hproducts & Hsales & Hstore & Hpage).
  destruct (Entry.more e).
  - intros (Hproducts' & Hsales' & Hstore' & Hpage')%IH. split_and!.
    + by eapply same_but_stock_all_trans.
    + rewrite Hsales', Hsales. by rewrite <- app_assoc.
    + congruence.
    + congruence.
  - intros [= <-]. done.
Qed.

Lemma prepareNewSales_ledger type script w w' thrown :
  prepareNewSales type script w = Some (w', thrown) →
  ∃ w1, salesLoop script w = Some w1 ∧ ledger w' = ledger (flush w1).
Proof.
  unfold prepareNewSales. destruct (salesLoop script w) as [w1|]; [|done].
  simpl. intros [= Hrun]. exists w1. split; [done|].
  pose proof (renderSalesTabs_ledger (flush w1)) as Htabs.
  destruct (renderSalesTabs (flush w1)) as [w2 [e|]]; simpl in Htabs.
  { by injection Hrun as <- _. }
  pose proof (renderSalesHistoryTable_ledger w2) as Hhist.
  destruct (renderSalesHistoryTable w2) as [w3 [e|]]; simpl in Hhist.
  { injection Hrun as <- _. congruence. }
  injection Hrun as <- _.
  destruct (updateDashboard_shows w3) as (_ & _ & _ & _ & Hdash). congruence.
Qed.

Lemma after_dialog_ledger type script w w' :
  after_dialog type script w = Some w' →
  ∃ w1, salesLoop script w = Some w1 ∧ ledger w' = ledger (flush w1).
Proof.
  unfold after_dialog. destruct (prepareNewSales type script w) as [[w0 thrown]|] eqn:Hrun;
    [|done].
  intros [= <-]. by eapply prepareNewSales_ledger.
Qed.

Lemma recordedSales_length script w : (length (recordedSales script w) ≤ length script)%nat.
Proof.
  revert w. induction script as [|e script IH]; intros w; [done|].
  cbn [recordedSales]. cbv zeta.
  destruct (recordSale _ _ _ w) as [[|sale] w1]; destruct (Entry.more e); simpl;
    try lia; specialize (IH w1); lia.
Qed.

(** X9. Whatever is answered in a dialog of sale entry, it adds, removes
    and reorders no product and changes no property of a product but its
    stock; it only appends sales, at most one for each turn; and of the
    store it writes the keys [products] and [sales] and no other. *)
Theorem dialog_keeps_catalog type script w w' :
  after_dialog type script w = Some w' →
  Forall2 same_but_stock (products w) (products w') ∧
  sales w' = sales w ++ recordedSales script w ∧
  (length (recordedSales script w) ≤ length script)%nat ∧
  ∀ key, key ∉ ["products"; "sales"] → localStorage w' !! key = localStorage w !! key.
Proof.
  intros (w1 & Hloop & Hledger)%after_dialog_ledger.
  apply salesLoop_run in Hloop as (Hproducts & Hsales & Hstore & _).
  injection Hledger as -> -> ->. split_and!; try done.
  - apply recordedSales_length.
  - intros key Hkey. rewrite !lookup_insert_ne; [by rewrite Hstore|..];
      intros <-; set_solver.
Qed.

Lemma dialog_keeps_catalog_witness :
  after_dialog "tile"
    [Entry.mk (Text "T1") (Fin 3) today true; Entry.mk (Text "T1") (Fin 20) today false]
    showroom
  = Some (updateDashboard
            (renderSalesHistoryTable
               (renderSalesTabs
                  (flush (sell (Text "T1") showroom (Fin 3, today)))).1).1) ∧
  recordedSales
    [Entry.mk (Text "T1") (Fin 3) today true; Entry.mk (Text "T1") (Fin 20) today false]
    showroom
  = [Sale.mk (Some "T1") None (Some (Fin 3)) (Some (Fin 600)) (Some today) None] ∧
  ∃ w',
    Forall2 same_but_stock (products showroom) (products w') ∧
    sales w' = sales showroom
               ++ [Sale.mk (Some "T1") None (Some (Fin 3)) (Some (Fin 600)) (Some today) None].
Proof.
  split; [reflexivity|]. split; [reflexivity|].
  eexists.
  destruct (dialog_keeps_catalog "tile"
              [Entry.mk (Text "T1") (Fin 3) today true;
               Entry.mk (Text "T1") (Fin 20) today false]
              showroom _ eq_refl) as (Hproducts & Hsales & _).
  split; [exact Hproducts|exact Hsales].
Defined.

Lemma same_but_stock_elem ps ps' p' :
  Forall2 same_but_stock ps ps' → p' ∈ ps' →
  ∃ p, p ∈ ps ∧ same_but_stock p p'.
Proof.
  intros Hall (j & Hj)%list_elem_of_lookup.
  destruct (Forall2_lookup_r _ _ _ _ _ Hall Hj) as (p & Hp & Hsame).
  exists p. split; [|done]. apply list_elem_of_lookup. eauto.
Qed.

Lemma sale_of_earlier ps ps' s :
  Forall2 same_but_stock ps ps' → sale_of ps' s → sale_of ps s.
Proof.
  intros Hall (p' & Hp' & Hserial & Hs).
  destruct (same_but_stock_elem _ _ _ Hall Hp') as (p & Hp & Hsame).
  destruct Hsame as (E1 & E2 & _ & E4 & _ & _ & _ & E8).
  exists p. rewrite <- E1, <- E2, <- E4, <- E8. done.
Qed.

Lemma recorded_sale_of serial quantity date w sale w' :
  recordSale serial quantity date w = (Recorded sale, w') →
  sale_of (products w) sale ∧ Sale.quantity sale = Some quantity ∧
  has_total sale ∧ Sale.date sale = Some date.
Proof.
  intros (i & p & Hfind & _ & -> & _)%recordSale_Recorded.
  apply find_product_Some in Hfind as [Hi Hserial].
  pose proof (strict_eq_answer_value _ _ Hserial) as Heq.
  assert (is_Some (Product.serial p)) as Hsome.
  { destruct (Product.serial p); [by eexists|]. by destruct serial. }
  split; [|split; [done|split; [by eexists|done]]].
  exists p. split; [apply list_elem_of_lookup; eauto|].
  split; [done|]. simpl. rewrite or_zero_amount. done.
Qed.

Lemma recordedSales_complete script w :
  Forall (λ s, sale_of (products w) s ∧ is_Some (Sale.quantity s) ∧
               has_total s ∧ is_Some (Sale.date s))
    (recordedSales script w).
Proof.
  revert w. induction script as [|e script IH]; intros w; [constructor|].
  cbn [recordedSales]. cbv zeta.
  destruct (recordSale_turn (Entry.serial e) (Entry.quantity e) (Entry.date e) w)
    as (Hproducts & _).
  assert (Forall (λ s, sale_of (products w) s ∧ is_Some (Sale.quantity s) ∧
                       has_total s ∧ is_Some (Sale.date s))
            match (recordSale (Entry.serial e) (Entry.quantity e) (Entry.date e) w).1 with
            | Recorded s => [s]
            | InvalidSale => []
            end) as Hnew.
  { destruct (recordSale _ _ _ w) as [[|sale] w1] eqn:Hsale; [constructor|].
    apply recorded_sale_of in Hsale as (? & Hq & ? & Hd).
    constructor; [|constructor]. rewrite Hq, Hd. split_and!; by eauto. }
  destruct (Entry.more e); [|done].
  apply Forall_app. split; [done|].
  eapply Forall_impl; [apply IH|]. simpl.
  intros s (Hof & ?). split; [|done]. by eapply sale_of_earlier.
Qed.

(** X10. Every sale that a dialog records carries a quantity, a total and a
    date, and the serial, name and type of a product of the ledger that has a
    serial; its total is its quantity at that product's price per box. *)
Theorem dialog_sales_complete script w :
  Forall (λ s, sale_of (products w) s ∧ is_Some (Sale.quantity s) ∧
               has_total s ∧ is_Some (Sale.date s))
    (recordedSales script w).
Proof. apply recordedSales_complete. Qed.

Lemma forEach_frame {A} (f : A → World → World * option Error) (l : list A) w el :
  (∀ x w, document (f x w).1 !! el = document w !! el) →
  document (forEach f l w).1 !! el = document w !! el.
Proof.
  intros Hf. revert w. induction l as [|x l IH]; intros w; simpl; [done|].
  specialize (Hf x w). destruct (f x w) as [w1 [e|]]; simpl in *; [done|].
  by rewrite IH.
Qed.

Lemma renderSalesTabs_frame w el :
  el ∉ ["#sales-tiles tbody"; "#sales-sanitary tbody"; "#sales-others tbody"] →
  document (renderSalesTabs w).1 !! el = document w !! el.
Proof.
  intros Hel. unfold renderSalesTabs. cbv zeta. rewrite forEach_frame.
  - simpl. rewrite !lookup_insert_ne; [done|..]; intros <-; set_solver.
  - intros s w0. destruct (saleRow s); [|done].
    destruct (salesTab _) as [tbody|] eqn:Htab; [|done]. simpl.
    rewrite lookup_insert_ne; [done|]. intros <-. by eapply tab_elsewhere.
Qed.

(** X11. The re-rendering that closes a dialog throws, and then a
    [TypeError], exactly when a sale that was in the ledger before the dialog
    has no total: the sales recorded in the dialog never make it throw.  When
    it throws, the dashboard is left with what it showed before the dialog. *)
Theorem dialog_throws_iff type script w w' thrown :
  prepareNewSales type script w = Some (w', thrown) →
  thrown = (if decide (Forall has_total (sales w)) then None else Some TypeError) ∧
  (thrown ≠ None →
   ∀ el, el ∈ ["total-products"; "total-stock"; "total-sales"; "low-stock-ul"] →
     document w' !! el = document w !! el).
Proof.
  unfold prepareNewSales. destruct (salesLoop script w) as [w1|] eqn:Hloop; [|done].
  apply salesLoop_run in Hloop as (_ & Hsales & _ & Hpage). simpl.
  assert (Forall has_total (sales w1) ↔ Forall has_total (sales w)) as Hiff.
  { rewrite Hsales, Forall_app. split; [tauto|]. intros ?. split; [done|].
    eapply Forall_impl; [apply recordedSales_complete|]. simpl. tauto. }
  destruct (sales_tables_thrown (flush w1)) as [Htabs _].
  pose proof (renderSalesTabs_ledger (flush w1)) as Hledger.
  pose proof (renderSalesTabs_frame (flush w1)) as Hframe.
  destruct (renderSalesTabs (flush w1)) as [w2 [e|]]; simpl in *.
  - intros [= <- <-]. split.
    + destruct (decide (Forall has_total (sales w1))) as [|Hno]; [done|].
      rewrite decide_False by tauto. done.
    + intros _ el Hel. rewrite Hframe, Hpage; [done|]. set_solver.
  - destruct (sales_tables_thrown w2) as [_ Hhist].
    injection Hledger as _ Hsales2 _.
    destruct (decide (Forall has_total (sales w1))) as [Hyes|]; [|done].
    rewrite decide_True in Hhist by by rewrite Hsales2.
    destruct (renderSalesHistoryTable w2) as [w3 [e|]]; simpl in *; [done|].
    intros [= <- <-]. split; [|done]. rewrite decide_True by tauto. done.
Qed.

Lemma dialog_throws_iff_witness :
  prepareNewSales "tile" [Entry.mk (Text "T1") (Fin 3) today false] brokenBooks
  = Some ((renderSalesTabs (flush (sell (Text "T1") brokenBooks (Fin 3, today)))).1,
          Some TypeError) ∧
  ¬ Forall has_total (sales brokenBooks) ∧
  ∀ el, el ∈ ["total-products"; "total-stock"; "total-sales"; "low-stock-ul"] →
    document (renderSalesTabs (flush (sell (Text "T1") brokenBooks (Fin 3, today)))).1 !! el
    = document brokenBooks !! el.
Proof.
  split; [reflexivity|]. split.
  - intros Hall. apply Forall_cons in Hall as [_ Hall].
    apply Forall_cons in Hall as [[total Htotal] _]. discriminate.
  - destruct (dialog_throws_iff "tile" [Entry.mk (Text "T1") (Fin 3) today false]
                brokenBooks _ _ eq_refl) as [_ Hstale].
    apply Hstale. discriminate.
Defined.

(** ** Stock through a dialog *)

Lemma stocked_lookup ps i p :
  stocked ps → ps !! i = Some p → ∃ s, Product.stock p = Some (Fin s) ∧ 0 ≤ s.
Proof. intros Hall Hi. by eapply (Forall_lookup_1 _ _ _ _ Hall Hi). Qed.

Lemma stocked_turn serial q date w :
  stocked (products w) →
  stocked (products (recordSale serial (Fin q) date w).2) ∧
  Zsum (amount ∘ Product.stock <$> products w)
  = Zsum (amount ∘ Product.stock <$> products (recordSale serial (Fin q) date w).2)
    + Zsum (amount ∘ Sale.quantity
              <$> match (recordSale serial (Fin q) date w).1 with
                  | Recorded s => [s]
                  | InvalidSale => []
                  end).
Proof.
  intros Hstocked.
  destruct (recordSale serial (Fin q) date w) as [[|sale] w'] eqn:Hsale.
  - pose proof (recordSale_turn serial (Fin q) date w) as (_ & _ & _ & _).
    assert (w' = w) as ->.
    { revert Hsale. unfold recordSale.
      destruct (find_product _ _) as [[i p]|]; [|by intros [=]].
      destruct (gt (Fin q) (ToNumber _)); [by intros [=]|discriminate]. }
    simpl. split; [done|]. unfold Zsum. simpl. lia.
  - apply recordSale_Recorded in Hsale as (i & p & Hfind & Hgt & -> & ->).
    apply find_product_Some in Hfind as [Hi _].
    destruct (stocked_lookup _ _ _ Hstocked Hi) as (s & Hs & Hpos).
    rewrite Hs in Hgt |- *. simpl in Hgt. apply bool_decide_eq_false in Hgt.
    simpl. split.
    + apply Forall_insert; [done|]. exists (s - q). split; [done|lia].
    + rewrite (Zsum_insert _ _ _ _ _ Hi). unfold compose. simpl. rewrite Hs.
      unfold Zsum. simpl. lia.
Qed.

Lemma salesLoop_stocked script w w' :
  stocked (products w) → numeric script →
  salesLoop script w = Some w' →
  stocked (products w') ∧
  Zsum (amount ∘ Product.stock <$> products w)
  = Zsum (amount ∘ Product.stock <$> products w')
    + Zsum (amount ∘ Sale.quantity <$> recordedSales script w).
Proof.
  intros Hstocked Hnum. revert w Hstocked.
  induction Hnum as [|e script Hq Hnum IH]; intros w Hstocked; [done|].
  cbn [salesLoop recordedSales]. cbv zeta.
  destruct (Entry.quantity e) as [q|] eqn:Hquantity; [|done].
  destruct (stocked_turn (Entry.serial e) q (Entry.date e) w Hstocked) as [Hnext Hsum].
  destruct (Entry.more e).
  - intros (Hlast & Hsum')%IH; [|done]. split; [done|].
    rewrite fmap_app, Zsum_app. lia.
  - intros [= <-]. done.
Qed.

Lemma stocked_nonneg ps : stocked ps → 0 ≤ Zsum (amount ∘ Product.stock <$> ps).
Proof.
  induction 1 as [|p ps (s & Hs & Hpos) _ IH]; [done|].
  rewrite fmap_cons, Zsum_cons. unfold compose at 1. rewrite Hs. simpl. lia.
Qed.

(** The sales recorded weigh no more than the quantities typed. *)
Lemma recorded_weight script w :
  weight (amount ∘ Sale.quantity <$> recordedSales script w) ≤ weight (quantities script).
Proof.
  revert w. induction script as [|e script IH]; intros w; [done|].
  cbn [recordedSales]. cbv zeta. unfold quantities. rewrite fmap_cons, weight_cons.
  fold (quantities script).
  pose proof (weight_nonneg (quantities script)) as Hrest.
  destruct (recordSale (Entry.serial e) (Entry.quantity e) (Entry.date e) w)
    as [[|sale] w1] eqn:Hsale; cbn [fst snd].
  - destruct (Entry.more e).
    + rewrite app_nil_l. specialize (IH w1). lia.
    + change (weight (amount ∘ Sale.quantity <$> [])) with 0. lia.
  - apply recordSale_Recorded in Hsale as (i & p & _ & _ & -> & _).
    destruct (Entry.more e).
    + rewrite <- app_comm_cons, app_nil_l, fmap_cons, weight_cons. specialize (IH w1).
      unfold compose at 1. cbn [Sale.quantity]. lia.
    + rewrite fmap_cons, weight_cons. unfold compose at 1. cbn [Sale.quantity].
      change (weight (amount ∘ Sale.quantity <$> [])) with 0. lia.
Qed.

(** X12. When every stock of the ledger is a whole number of zero or more,
    every quantity entered is a whole number, and the stocks and the sizes of
    the quantities add up to no more than 2^53, a dialog of sale entry, over
    however many products, leaves every stock a whole number of zero or
    more, and the stock on the dashboard, still in the exact range, is lower
    by exactly the quantities of the sales recorded. *)
Theorem dialog_conserves_stock type script w w' :
  stocked (products w) →
  numeric script →
  safe (Zsum (amount ∘ Product.stock <$> products w) + weight (quantities script)) →
  after_dialog type script w = Some w' →
  stocked (products w') ∧
  safe (Zsum (amount ∘ Product.stock <$> products w')) ∧
  safe (Zsum (amount ∘ Sale.quantity <$> recordedSales script w)) ∧
  totalStock (products w')
  = sub (totalStock (products w))
        (Fin (Zsum (amount ∘ Sale.quantity <$> recordedSales script w))).
Proof.
  intros Hstocked Hnum Hsafe (w1 & Hloop & Hledger)%after_dialog_ledger.
  apply salesLoop_stocked in Hloop as [Hlast Hsum]; [|done..].
  injection Hledger as -> _ _.
  pose proof (stocked_nonneg _ Hstocked) as Hpos.
  pose proof (stocked_nonneg _ Hlast) as Hpos'.
  pose proof (recorded_weight script w) as Hweight.
  pose proof (Zsum_weight (amount ∘ Sale.quantity <$> recordedSales script w)) as Hrec.
  split; [done|]. split_and!.
  - revert Hsafe Hsum Hpos Hpos' Hweight Hrec. unfold safe.
    generalize (weight (quantities script)).
    generalize (weight (amount ∘ Sale.quantity <$> recordedSales script w)).
    generalize (Zsum (amount ∘ Sale.quantity <$> recordedSales script w)).
    generalize (Zsum (amount ∘ Product.stock <$> products w1)).
    generalize (Zsum (amount ∘ Product.stock <$> products w)). intros. lia.
  - revert Hsafe Hsum Hpos Hpos' Hweight Hrec. unfold safe.
    generalize (weight (quantities script)).
    generalize (weight (amount ∘ Sale.quantity <$> recordedSales script w)).
    generalize (Zsum (amount ∘ Sale.quantity <$> recordedSales script w)).
    generalize (Zsum (amount ∘ Product.stock <$> products w1)).
    generalize (Zsum (amount ∘ Product.stock <$> products w)). intros. lia.
  - unfold totalStock. rewrite !(fold_add_amount Product.stock _ 0). simpl.
    f_equal. lia.
Qed.

Lemma dialog_conserves_stock_witness :
  stocked (products shop) ∧
  numeric [Entry.mk (Text "T1") (Fin 3) today true;
           Entry.mk (Text "T1") (Fin 20) today true;
           Entry.mk (Text "T1") (Fin 7) today false] ∧
  safe (Zsum (amount ∘ Product.stock <$> products shop)
        + weight (quantities [Entry.mk (Text "T1") (Fin 3) today true;
                              Entry.mk (Text "T1") (Fin 20) today true;
                              Entry.mk (Text "T1") (Fin 7) today false])) ∧
  ∃ w',
    after_dialog "tile"
      [Entry.mk (Text "T1") (Fin 3) today true;
       Entry.mk (Text "T1") (Fin 20) today true;
       Entry.mk (Text "T1") (Fin 7) today false] shop = Some w' ∧
    stocked (products w') ∧
    safe (Zsum (amount ∘ Product.stock <$> products w')) ∧
    safe (3 + (7 + 0)) ∧
    totalStock (products w') = sub (Fin 10) (Fin (3 + (7 + 0))).
Proof.
  assert (stocked (products shop)) as Hstocked.
  { constructor; [|constructor]. exists 10. split; [reflexivity|discriminate]. }
  assert (numeric [Entry.mk (Text "T1") (Fin 3) today true;
                   Entry.mk (Text "T1") (Fin 20) today true;
                   Entry.mk (Text "T1") (Fin 7) today false]) as Hnum.
  { repeat constructor; discriminate. }
  assert (safe (Zsum (amount ∘ Product.stock <$> products shop)
                + weight (quantities [Entry.mk (Text "T1") (Fin 3) today true;
                                      Entry.mk (Text "T1") (Fin 20) today true;
                                      Entry.mk (Text "T1") (Fin 7) today false])))
    as Hsafe.
  { vm_compute. split; discriminate. }
  split; [exact Hstocked|]. split; [exact Hnum|]. split; [exact Hsafe|].
  eexists. split; [reflexivity|].
  exact (dialog_conserves_stock "tile" _ shop _ Hstocked Hnum Hsafe eq_refl).
Defined.

(** ** Products that cannot be sold *)

Lemma unreachable_not_found serial ps j :
  unreachable ps j → ∀ p, find_product serial ps ≠ Some (j, p).
Proof.
  intros (q & Hj & Hwhy) p (Hp & Hmatch & Hfirst)%list_find_Some.
  rewrite Hj in Hp. injection Hp as <-.
  destruct Hwhy as [Hnone|(j' & q' & Hlt & Hj' & Hsame)].
  - rewrite Hnone in Hmatch. done.
  - apply (Hfirst j' q' Hj' Hlt). by rewrite Hsame.
Qed.

Lemma unreachable_turn serial quantity date w j q :
  products w !! j = Some q →
  unreachable (products w) j →
  products (recordSale serial quantity date w).2 !! j = Some q ∧
  unreachable (products (recordSale serial quantity date w).2) j.
Proof.
  intros Hj Hun.
  pose proof (recordSale_turn serial quantity date w) as (Hsame & _).
  assert (products (recordSale serial quantity date w).2 !! j = Some q) as Hj'.
  { destruct (recordSale serial quantity date w) as [[|sale] w'] eqn:Hsale.
    - revert Hsale. unfold recordSale.
      destruct (find_product _ _) as [[i p]|]; [|by intros [= <-]].
      destruct (gt quantity (ToNumber _)); [by intros [= <-]|discriminate].
    - apply recordSale_Recorded in Hsale as (i & p & Hfind & _ & _ & ->). simpl.
      rewrite list_lookup_insert_ne; [done|]. intros ->.
      by eapply unreachable_not_found. }
  split; [done|]. exists q. split; [done|].
  destruct Hun as (q0 & Hq0 & Hwhy). rewrite Hj in Hq0. injection Hq0 as <-.
  destruct Hwhy as [Hnone|(j' & q' & Hlt & Hq' & Hserial)]; [by left|right].
  destruct (Forall2_lookup_l _ _ _ _ _ Hsame Hq') as (q'' & Hq'' & Hkept).
  exists j', q''. split_and!; try done.
  destruct Hkept as (-> & _). done.
Qed.

Lemma salesLoop_unreachable script w w' j q :
  products w !! j = Some q →
  unreachable (products w) j →
  salesLoop script w = Some w' →
  products w' !! j = Some q.
Proof.
  revert w. induction script as [|e script IH]; intros w Hj Hun; [done|].
  cbn [salesLoop]. cbv zeta.
  destruct (unreachable_turn (Entry.serial e) (Entry.quantity e) (Entry.date e) w j q Hj Hun)
    as [Hj' Hun'].
  destruct (Entry.more e); [by apply IH|]. by intros [= <-].
Qed.

(** X13. A product without a serial, or with the serial of a product that
    comes before it, cannot be sold: whatever is typed in a dialog of sale
    entry, it is in the ledger afterwards exactly as it was. *)
Theorem dialog_never_reaches type script w w' j q :
  products w !! j = Some q →
  unreachable (products w) j →
  after_dialog type script w = Some w' →
  products w' !! j = Some q.
Proof.
  intros Hj Hun (w1 & Hloop & Hledger)%after_dialog_ledger.
  injection Hledger as -> _ _. by eapply salesLoop_unreachable.
Qed.

Lemma dialog_never_reaches_witness :
  products twins !! 1%nat = Some (Product.set_stock (Fin 99) T1) ∧
  unreachable (products twins) 1 ∧
  ∃ w',
    after_dialog "tile" [Entry.mk (Text "T1") (Fin 4) today false] twins = Some w' ∧
    Product.stock <$> products w' = [Some (Fin 6); Some (Fin 99)] ∧
    products w' !! 1%nat = Some (Product.set_stock (Fin 99) T1).
Proof.
  assert (unreachable (products twins) 1) as Hun.
  { exists (Product.set_stock (Fin 99) T1). split; [reflexivity|]. right.
    exists 0%nat, T1. split; [constructor|]. split; reflexivity. }
  split; [reflexivity|]. split; [exact Hun|].
  eexists. split; [reflexivity|]. split; [reflexivity|].
  exact (dialog_never_reaches "tile" [Entry.mk (Text "T1") (Fin 4) today false] twins _ 1
           (Product.set_stock (Fin 99) T1) eq_refl Hun eq_refl).
Defined.

(** ** Switching sections *)

Lemma renderSalesHistoryTable_frame w el :
  el ≠ "#sales-table tbody" →
  document (renderSalesHistoryTable w).1 !! el = document w !! el.
Proof.
  intros Hel. unfold renderSalesHistoryTable. cbv zeta. rewrite forEach_frame.
  - simpl. by rewrite lookup_insert_ne.
  - intros s w0. destruct (saleRow s); [|done]. simpl. by rewrite lookup_insert_ne.
Qed.

Lemma when_world id name render w :
  when id name render w = if decide (id = name) then render w else w.
Proof. unfold when. by destruct (decide (id = name)); [rewrite bool_decide_true|rewrite bool_decide_false]. Qed.

Lemma showSection_world id s :
  (world (showSection id s).1, (showSection id s).2)
  = if decide (id = "dashboard") then (updateDashboard (world s), None)
    else if decide (id = "tiles-page") then (renderTilesTable (world s), None)
    else if decide (id = "sanitary-page") then (renderSanitaryTable (world s), None)
    else if decide (id = "others-page") then (renderOthersTable (world s), None)
    else if decide (id = "sales") then renderSalesTabs (world s)
    else if decide (id = "sales-history") then renderSalesHistoryTable (world s)
    else (world s, None).
Proof.
  unfold showSection. cbv zeta. simpl. rewrite !when_world. unfold when_throwing.
  repeat (case_decide; [subst id; simpl; try done|]).
  - by destruct (renderSalesTabs (world s)) as [w [e|]].
  - by destruct (renderSalesHistoryTable (world s)) as [w [e|]].
  - rewrite !bool_decide_false by done. done.
Qed.

(** X14. [showSection] shows the sections with the given id and hides all
    other sections, and no other element; it changes nothing of the ledger
    and writes only to the elements of the view it opens, to none for an id
    it does not know; and it throws, a [TypeError], exactly when it opens the
    sales or the sales history while a sale has no total. *)
Theorem showSection_contract id s :
  Forall2 (shown id) (elements s) (elements (showSection id s).1) ∧
  ledger (world (showSection id s).1) = ledger (world s) ∧
  (∀ el, el ∉ view id →
     document (world (showSection id s).1) !! el = document (world s) !! el) ∧
  (showSection id s).2
    = (if decide (id ∈ ["sales"; "sales-history"] ∧ ¬ Forall has_total (sales (world s)))
       then Some TypeError else None).
Proof.
  split.
  { unfold showSection. cbv zeta. simpl. apply Forall2_fmap_r, Forall_Forall2_diag.
    apply Forall_forall. intros e _. unfold shown, toggle.
    destruct e as [eid [] etab edisplay]; simpl; [|done]. split_and!; try done.
    case_bool_decide; [by rewrite decide_True|by rewrite decide_False]. }
  pose proof (showSection_world id s) as Hworld.
  destruct (showSection id s) as [s' thrown]. simpl in *. unfold view.
  destruct (decide (id = "dashboard")) as [->|].
  { injection Hworld as -> ->. destruct (updateDashboard_shows (world s)) as (_&_&_&_&Hl).
    split_and!; [done| |by rewrite decide_False by set_solver].
    intros el Hel. rewrite updateDashboard_closed. simpl.
    rewrite !lookup_insert_ne; [done|..]; intros <-; set_solver. }
  destruct (decide (id = "tiles-page")) as [->|].
  { injection Hworld as -> ->. unfold renderTilesTable.
    split_and!; [apply renderTable_ledger| |by rewrite decide_False by set_solver].
    intros el Hel. rewrite renderTable_closed. simpl.
    rewrite lookup_insert_ne; [done|]. intros <-; set_solver. }
  destruct (decide (id = "sanitary-page")) as [->|].
  { injection Hworld as -> ->. unfold renderSanitaryTable.
    split_and!; [apply renderTable_ledger| |by rewrite decide_False by set_solver].
    intros el Hel. rewrite renderTable_closed. simpl.
    rewrite lookup_insert_ne; [done|]. intros <-; set_solver. }
  destruct (decide (id = "others-page")) as [->|].
  { injection Hworld as -> ->. unfold renderOthersTable.
    split_and!; [apply renderTable_ledger| |by rewrite decide_False by set_solver].
    intros el Hel. rewrite renderTable_closed. simpl.
    rewrite lookup_insert_ne; [done|]. intros <-; set_solver. }
  destruct (decide (id = "sales")) as [->|].
  { destruct (sales_tables_thrown (world s)) as [Hthrown _].
    pose proof (renderSalesTabs_ledger (world s)) as Hledger.
    pose proof (renderSalesTabs_frame (world s)) as Hframe.
    rewrite <- Hworld in Hthrown, Hledger, Hframe. simpl in *.
    split_and!; [done|done|]. rewrite Hthrown.
    destruct (decide (Forall has_total (sales (world s)))).
    - rewrite decide_False by tauto. done.
    - rewrite decide_True; [done|]. split; [set_solver|done]. }
  destruct (decide (id = "sales-history")) as [->|].
  { destruct (sales_tables_thrown (world s)) as [_ Hthrown].
    pose proof (renderSalesHistoryTable_ledger (world s)) as Hledger.
    pose proof (renderSalesHistoryTable_frame (world s)) as Hframe.
    rewrite <- Hworld in Hthrown, Hledger, Hframe. simpl in *.
    split_and!; [done| |].
    - intros el Hel. apply Hframe. set_solver.
    - rewrite Hthrown. destruct (decide (Forall has_total (sales (world s)))).
      + rewrite decide_False by tauto. done.
      + rewrite decide_True; [done|]. split; [set_solver|done]. }
  injection Hworld as -> ->. split_and!; [done|done|].
  rewrite decide_False; [done|]. intros [Hid _]. set_solver.
Qed.

(** X15. Sections and sales tabs do not get in each other's way: as long as
    no element of the page is both a section and a sales tab, opening a
    section and choosing a sales tab give the same page in either order. *)
Theorem sections_and_tabs_commute id tabId s :
  Forall (λ e, ¬ (Element.section e = true ∧ Element.tab e = true)) (elements s) →
  showSection id (toggleSalesTab tabId s)
  = (toggleSalesTab tabId (showSection id s).1, (showSection id s).2).
Proof.
  intros Hapart. unfold showSection, toggleSalesTab. cbv zeta. simpl.
  f_equal. f_equal. rewrite <- !list_fmap_compose.
  apply Forall_fmap_ext_1. eapply Forall_impl; [exact Hapart|]. simpl.
  intros [eid [] [] edisplay] Hnot; simpl; try done. exfalso. by apply Hnot.
Qed.

Lemma sections_and_tabs_commute_witness :
  Forall (λ e, ¬ (Element.section e = true ∧ Element.tab e = true)) (elements front) ∧
  Element.display <$> elements (toggleSalesTab "sales-others" (showSection "sales" front).1)
  = ["none"; "block"; "none"; "none"; "block"] ∧
  showSection "sales" (toggleSalesTab "sales-others" front)
  = (toggleSalesTab "sales-others" (showSection "sales" front).1,
     (showSection "sales" front).2).
Proof.
  assert (Forall (λ e, ¬ (Element.section e = true ∧ Element.tab e = true))
            (elements front)) as Hapart.
  { repeat constructor; simpl; intros [? ?]; discriminate. }
  split; [exact Hapart|]. split; [reflexivity|].
  exact (sections_and_tabs_commute "sales" "sales-others" front Hapart).
Defined.

(** ** The stored text

    [JSON.parse] reads back what [JSON.stringify] wrote. *)

Lemma app_cons c a b : String c a +:+ b = String c (a +:+ b).
Proof. done. Qed.

Lemma app_nil_l' b : "" +:+ b = b.
Proof. done. Qed.

Lemma app_assoc' a b c : (a +:+ b) +:+ c = a +:+ b +:+ c.
Proof. induction a as [|x a IH]; [done|]. by rewrite !app_cons, IH. Qed.

Lemma app_empty a : a +:+ "" = a.
Proof. induction a as [|x a IH]; [done|]. by rewrite app_cons, IH. Qed.

Lemma length_app' a b : String.length (a +:+ b) = (String.length a + String.length b)%nat.
Proof. induction a as [|x a IH]; [done|]. rewrite app_cons. simpl. by rewrite IH. Qed.

Lemma string_body_escape c r :
  JSON.string_body (JSON.escape c +:+ r)
  = '(v, rest) ← JSON.string_body r; Some (String c v, rest).
Proof.
  destruct c as [[] [] [] [] [] [] [] []]; try reflexivity.
Qed.

Lemma string_body_text s r :
  JSON.string_body (JSON.escape_all s +:+ String JSON.quote r) = Some (s, r).
Proof.
  induction s as [|c s IH]; [done|].
  change (JSON.escape_all (String c s)) with (JSON.escape c +:+ JSON.escape_all s).
  rewrite app_assoc', string_body_escape, IH. done.
Qed.

Lemma string_text_app s r :
  JSON.string_text s +:+ r = String JSON.quote (JSON.escape_all s +:+ String JSON.quote r).
Proof. unfold JSON.string_text. rewrite !app_cons, app_assoc'. reflexivity. Qed.

Lemma parse_value_string fuel s r :
  JSON.parse_value (S fuel) (JSON.string_text s +:+ r) = Some (JSON.Str s, r).
Proof.
  rewrite string_text_app. cbn [JSON.parse_value]. 
  change (JSON.skip_ws (String JSON.quote ?x)) with (String JSON.quote x).
  cbv beta iota. simpl. rewrite string_body_text. done.
Qed.

(* numbers *)
Lemma pretty_N_go_app x s r : pretty_N_go x s +:+ r = pretty_N_go x (s +:+ r).
Proof.
  revert s. induction (N.lt_wf_0 x) as [x _ IH]; intros s.
  destruct (decide (x = 0)%N) as [->|].
  - by rewrite !pretty_N_go_0.
  - rewrite (pretty_N_go_step x s), (pretty_N_go_step x (s +:+ r)) by lia.
    rewrite IH; [reflexivity|]. apply N.div_lt; lia.
Qed.

Lemma digit_pretty_N_char d : (d < 10)%N → JSON.digit (pretty_N_char d) = Some (Z.of_N d).
Proof.
  intros Hd.
  assert (d = 0 ∨ d = 1 ∨ d = 2 ∨ d = 3 ∨ d = 4 ∨ d = 5 ∨ d = 6 ∨ d = 7 ∨ d = 8 ∨ d = 9)%N
    as Hcases by lia.
  repeat (destruct Hcases as [->|Hcases]; [reflexivity|]). by subst.
Qed.

Lemma digits_pretty_N_go x :
  ∃ k : nat, ((0 < x)%N → (0 < k)%nat) ∧
    ∀ acc n s, JSON.digits acc n (pretty_N_go x s)
               = JSON.digits (acc * 10 ^ Z.of_nat k + Z.of_N x) (n + k) s.
Proof.
  induction (N.lt_wf_0 x) as [x _ IH].
  destruct (decide (x = 0)%N) as [->|Hx].
  - exists 0%nat. split; [lia|]. intros acc n s. rewrite pretty_N_go_0.
    f_equal; [|lia]. simpl. lia.
  - destruct (IH (x `div` 10)%N) as (k & _ & Hk); [apply N.div_lt; lia|].
    exists (S k). split; [lia|]. intros acc n s.
    rewrite pretty_N_go_step by lia. rewrite Hk. cbn [JSON.digits].
    rewrite digit_pretty_N_char by (apply N.mod_lt; lia).
    f_equal; [|lia].
    rewrite Nat2Z.inj_succ, Z.pow_succ_r by lia.
    pose proof (N.div_mod x 10 ltac:(lia)) as Hdm.
    apply (f_equal Z.of_N) in Hdm. rewrite N2Z.inj_add, N2Z.inj_mul in Hdm.
    change (Z.of_N 10) with 10 in Hdm. lia.
Qed.

Lemma pretty_N_go_head x s :
  (0 < x)%N →
  ∃ d r, pretty_N_go x s = String (pretty_N_char d) r ∧ (1 ≤ d ≤ 9)%N.
Proof.
  revert s. induction (N.lt_wf_0 x) as [x _ IH]; intros s Hx.
  rewrite pretty_N_go_step by done.
  destruct (decide (x `div` 10 = 0)%N) as [Hsmall|Hbig].
  - rewrite Hsmall, pretty_N_go_0. exists (x `mod` 10)%N, s. split; [done|].
    assert (10 ≠ 0)%N as Hten by done.
    pose proof (N.div_mod x 10 Hten) as Hdm. rewrite Hsmall in Hdm.
    pose proof (N.mod_lt x 10 Hten). lia.
  - apply IH; [apply N.div_lt; lia|by apply N.neq_0_lt_0].
Qed.

Lemma closes_digits r acc n : closes r → JSON.digits acc n r = (acc, n, r).
Proof.
  intros (c & r' & -> & Hc).
  repeat (apply elem_of_cons in Hc as [->|Hc]; [reflexivity|]). by apply elem_of_nil in Hc.
Qed.

Lemma closes_frac r m : closes r → JSON.frac_part m r = Some (m, 0, r).
Proof.
  intros (c & r' & -> & Hc).
  repeat (apply elem_of_cons in Hc as [->|Hc]; [reflexivity|]). by apply elem_of_nil in Hc.
Qed.

Lemma closes_exp r : closes r → JSON.exp_part r = Some (0, r).
Proof.
  intros (c & r' & -> & Hc).
  repeat (apply elem_of_cons in Hc as [->|Hc]; [reflexivity|]). by apply elem_of_nil in Hc.
Qed.

Lemma closes_skip_ws r : closes r → JSON.skip_ws r = r.
Proof.
  intros (c & r' & -> & Hc).
  repeat (apply elem_of_cons in Hc as [->|Hc]; [reflexivity|]). by apply elem_of_nil in Hc.
Qed.

Lemma substring_all r : String.substring 0 (String.length r) r = r.
Proof. induction r as [|c r IH]; [done|]. simpl. by rewrite IH. Qed.

Lemma literal_null r : JSON.literal "null" JSON.Null ("null" +:+ r) = Some (JSON.Null, r).
Proof.
  change ("null" +:+ r) with (String "n" (String "u" (String "l" (String "l" r)))).
  unfold JSON.literal. simpl.
  assert (String.prefix "" r = true) as -> by by destruct r.
  by rewrite Nat.sub_0_r, substring_all.
Qed.

Lemma parse_value_null fuel r :
  JSON.parse_value (S fuel) ("null" +:+ r) = Some (JSON.Null, r).
Proof.
  rewrite <- literal_null.
  change ("null" +:+ r) with (String "n" (String "u" (String "l" (String "l" r)))).
  reflexivity.
Qed.

(** A numeral without sign: its first digit is not zero. *)
Lemma parse_number_unsigned d s :
  (1 ≤ d ≤ 9)%N →
  JSON.parse_number (String (pretty_N_char d) s)
  = (let '(m, n, r) := JSON.digits 0 0 (String (pretty_N_char d) s) in
     if bool_decide (n = 0%nat) then None
     else '(m, e1, s) ← JSON.frac_part m r;
          '(e2, s) ← JSON.exp_part s;
          Some (JSON.Number (1 * m) (e1 + e2), s)) ∧
  JSON.parse_number (String "-" (String (pretty_N_char d) s))
  = (let '(m, n, r) := JSON.digits 0 0 (String (pretty_N_char d) s) in
     if bool_decide (n = 0%nat) then None
     else '(m, e1, s) ← JSON.frac_part m r;
          '(e2, s) ← JSON.exp_part s;
          Some (JSON.Number (-1 * m) (e1 + e2), s)) ∧
  ∀ fuel,
    JSON.parse_value (S fuel) (String (pretty_N_char d) s)
    = JSON.parse_number (String (pretty_N_char d) s).
Proof.
  intros Hd.
  assert (d = 1 ∨ d = 2 ∨ d = 3 ∨ d = 4 ∨ d = 5 ∨ d = 6 ∨ d = 7 ∨ d = 8 ∨ d = 9)%N
    as Hcases by lia.
  assert (∀ c : ascii,
            c ∈ ["1"; "2"; "3"; "4"; "5"; "6"; "7"; "8"; "9"]%char →
            JSON.parse_number (String c s)
            = (let '(m, n, r) := JSON.digits 0 0 (String c s) in
               if bool_decide (n = 0%nat) then None
               else '(m, e1, s) ← JSON.frac_part m r;
                    '(e2, s) ← JSON.exp_part s;
                    Some (JSON.Number (1 * m) (e1 + e2), s)) ∧
            JSON.parse_number (String "-" (String c s))
            = (let '(m, n, r) := JSON.digits 0 0 (String c s) in
               if bool_decide (n = 0%nat) then None
               else '(m, e1, s) ← JSON.frac_part m r;
                    '(e2, s) ← JSON.exp_part s;
                    Some (JSON.Number (-1 * m) (e1 + e2), s)) ∧
            ∀ fuel, JSON.parse_value (S fuel) (String c s) = JSON.parse_number (String c s))
    as Hdigit.
  { intros c Hc.
    repeat (apply elem_of_cons in Hc as [->|Hc];
      [split; [|split; [|reflexivity]];
       unfold JSON.parse_number, JSON.int_part; cbn [JSON.digits JSON.digit];
       simpl;
       match goal with
       | |- context [JSON.digits ?a ?b s] => destruct (JSON.digits a b s) as [[? n] ?]
       end; by destruct (bool_decide (n = 0%nat))|]).
    by apply elem_of_nil in Hc. }
  repeat (destruct Hcases as [->|Hcases]; [apply Hdigit; set_solver|]).
  subst. apply Hdigit. set_solver.
Qed.

Lemma digits_numeral p r :
  closes r →
  ∃ d s k, pretty_N_go (N.pos p) r = String (pretty_N_char d) s ∧ (1 ≤ d ≤ 9)%N ∧
    JSON.digits 0 0 (String (pretty_N_char d) s) = (Z.pos p, S k, r).
Proof.
  intros Hr.
  destruct (pretty_N_go_head (N.pos p) r) as (d & s & Heq & Hd); [done|].
  destruct (digits_pretty_N_go (N.pos p)) as (k & Hk & Hdigits).
  destruct k as [|k]; [specialize (Hk ltac:(done)); lia|].
  exists d, s, k. split; [done|]. split; [done|].
  rewrite <- Heq, Hdigits, closes_digits by done. done.
Qed.

Lemma parse_value_numeral fuel z r :
  closes r →
  JSON.parse_value (S fuel) (pretty z +:+ r) = Some (JSON.Number z 0, r).
Proof.
  intros Hr. destruct z as [|p|p].
  - destruct Hr as (c & r' & -> & Hc).
    repeat (apply elem_of_cons in Hc as [->|Hc]; [reflexivity|]).
    by apply elem_of_nil in Hc.
  - change (pretty (Z.pos p)) with (pretty_N_go (N.pos p) "").
    rewrite pretty_N_go_app. change ("" +:+ r) with r.
    destruct (digits_numeral p r Hr) as (d & s & k & -> & Hd & Hdigits).
    destruct (parse_number_unsigned d s Hd) as (Hparse & _ & ->).
    rewrite Hparse, Hdigits. simpl. rewrite closes_frac by done. simpl.
    rewrite closes_exp by done. done.
  - change (pretty (Z.neg p)) with ("-" +:+ pretty_N_go (N.pos p) "").
    rewrite app_assoc', pretty_N_go_app. change ("" +:+ r) with r.
    change ("-" +:+ ?x) with (String "-" x).
    destruct (digits_numeral p r Hr) as (d & s & k & -> & Hd & Hdigits).
    destruct (parse_number_unsigned d s Hd) as (_ & Hparse & _).
    transitivity (JSON.parse_number (String "-" (String (pretty_N_char d) s)));
      [reflexivity|].
    rewrite Hparse, Hdigits. simpl. rewrite closes_frac by done. simpl.
    rewrite closes_exp by done. done.
Qed.

Lemma parse_value_number fuel n r :
  closes r →
  JSON.parse_value (S fuel) (JSON.number_text n +:+ r) = Some (number_json n, r).
Proof.
  intros Hr. destruct n as [z|].
  - by apply parse_value_numeral.
  - exact (parse_value_null fuel r).
Qed.

Lemma closes_comma r : closes (String "," r).
Proof. exists ","%char, r. split; [done|]. set_solver. Qed.
Lemma closes_brace r : closes (String "}" r).
Proof. exists "}"%char, r. split; [done|]. set_solver. Qed.
Lemma closes_bracket r : closes (String "]" r).
Proof. exists "]"%char, r. split; [done|]. set_solver. Qed.

Lemma parse_members_key fuel k rest :
  JSON.parse_members (S fuel) (JSON.string_text k +:+ rest)
  = match JSON.skip_ws rest with
    | String ":" r =>
        '(v, r) ← JSON.parse_value fuel r;
        match JSON.skip_ws r with
        | String "," r' =>
            '(ms, rest) ← JSON.parse_members fuel r'; Some ((k, v) :: ms, rest)
        | String "}" r' => Some ([(k, v)], r')
        | _ => None
        end
    | _ => None
    end.
Proof.
  rewrite string_text_app.
  transitivity ('(k, r) ← JSON.string_body (JSON.escape_all k +:+ String JSON.quote rest);
                match JSON.skip_ws r with
                | String ":" r =>
                    '(v, r) ← JSON.parse_value fuel r;
                    match JSON.skip_ws r with
                    | String "," r' =>
                        '(ms, rest) ← JSON.parse_members fuel r'; Some ((k, v) :: ms, rest)
                    | String "}" r' => Some ([(k, v)], r')
                    | _ => None
                    end
                | _ => None
                end); [reflexivity|].
  rewrite string_body_text. reflexivity.
Qed.

Lemma members_parse ms texts :
  Forall2 written ms texts →
  ms ≠ [] →
  ∀ fuel r, (length ms < fuel)%nat →
    JSON.parse_members fuel (JSON.join "," texts +:+ String "}" r) = Some (ms, r).
Proof.
  induction 1 as [|[k v] t ms texts (vt & -> & Hvt) Hrest IH]; [done|].
  intros _ fuel r Hfuel. destruct fuel as [|fuel]; [simpl in Hfuel; lia|].
  simpl in Hfuel. destruct fuel as [|fuel]; [lia|].
  cbn [fst snd] in *.
  destruct Hrest as [|m' t' ms' texts' Hm' Hrest'].
  - change (JSON.join "," [JSON.string_text k +:+ ":" +:+ vt])
      with (JSON.string_text k +:+ ":" +:+ vt).
    rewrite !app_assoc', parse_members_key.
    change (":" +:+ ?x) with (String ":" x).
    change (JSON.skip_ws (String ":" ?x)) with (String ":" x). cbv iota beta.
    rewrite Hvt by apply closes_brace. reflexivity.
  - change (JSON.join "," ((JSON.string_text k +:+ ":" +:+ vt) :: t' :: texts'))
      with ((JSON.string_text k +:+ ":" +:+ vt) +:+ "," +:+ JSON.join "," (t' :: texts')).
    rewrite !app_assoc', parse_members_key.
    change (":" +:+ ?x) with (String ":" x).
    change (JSON.skip_ws (String ":" ?x)) with (String ":" x). cbv iota beta.
    change ("," +:+ ?x) with (String "," x).
    rewrite Hvt by apply closes_comma.
    change (Some (v, String "," ?x) ≫= ?f) with (f (v, String "," x)). cbv beta iota.
    change (JSON.skip_ws (String "," ?x)) with (String "," x). cbv iota beta.
    rewrite IH; [reflexivity|done|simpl; simpl in Hfuel; lia].
Qed.

Lemma written_string key (v : option string) :
  Forall2 written (member JSON.Str key v) (JSON.property JSON.string_text key v).
Proof.
  destruct v as [s|]; [|constructor]. repeat constructor.
  exists (JSON.string_text s). split; [done|]. intros fuel r _. apply parse_value_string.
Qed.

Lemma written_number key (v : option number) :
  Forall2 written (member number_json key v) (JSON.property JSON.number_text key v).
Proof.
  destruct v as [n|]; [|constructor]. repeat constructor.
  exists (JSON.number_text n). split; [done|]. intros fuel r Hr. by apply parse_value_number.
Qed.

Lemma written_length m t : written m t → (1 ≤ String.length t)%nat.
Proof.
  intros (vt & -> & _). rewrite string_text_app. simpl. lia.
Qed.

Lemma join_cons2 t t' l :
  JSON.join "," (t :: t' :: l) = t +:+ "," +:+ JSON.join "," (t' :: l).
Proof. done. Qed.

Lemma join_length texts :
  Forall (λ t, 1 ≤ String.length t)%nat texts →
  (length texts ≤ String.length (JSON.join "," texts))%nat.
Proof.
  induction 1 as [|t texts Ht Hall IH]; [done|].
  destruct texts as [|t' texts]; [simpl; lia|].
  rewrite join_cons2, !length_app'. simpl in *. lia.
Qed.

Lemma parse_value_object_eq fuel X :
  JSON.parse_value (S fuel) (String "{" X)
  = match JSON.skip_ws X with
    | String "}" r' => Some (JSON.Object [], r')
    | r => '(ms, rest) ← JSON.parse_members fuel r; Some (JSON.Object ms, rest)
    end.
Proof. reflexivity. Qed.

Lemma parse_value_array_eq fuel X :
  JSON.parse_value (S fuel) (String "[" X)
  = match JSON.skip_ws X with
    | String "]" r' => Some (JSON.Array [], r')
    | r => '(vs, rest) ← JSON.parse_elements fuel r; Some (JSON.Array vs, rest)
    end.
Proof. reflexivity. Qed.

Lemma parse_elements_eq fuel s :
  JSON.parse_elements (S fuel) s
  = '(v, r) ← JSON.parse_value fuel s;
    match JSON.skip_ws r with
    | String "," r' => '(vs, rest) ← JSON.parse_elements fuel r'; Some (v :: vs, rest)
    | String "]" r' => Some ([v], r')
    | _ => None
    end.
Proof. reflexivity. Qed.

Lemma object_members fuel X :
  match JSON.skip_ws (String JSON.quote X) with
  | String "}" r' => Some (JSON.Object [], r')
  | r => '(ms, rest) ← JSON.parse_members fuel r; Some (JSON.Object ms, rest)
  end
  = '(ms, rest) ← JSON.parse_members fuel (String JSON.quote X);
    Some (JSON.Object ms, rest).
Proof. reflexivity. Qed.

Lemma object_parse ms texts fuel r :
  Forall2 written ms texts →
  (String.length (JSON.object_text texts) ≤ fuel)%nat →
  JSON.parse_value fuel (JSON.object_text texts +:+ r) = Some (JSON.Object ms, r).
Proof.
  intros Hall Hfuel. unfold JSON.object_text in *.
  assert (length ms ≤ String.length (JSON.join "," texts))%nat as Hlen.
  { rewrite (Forall2_length _ _ _ Hall). apply join_length.
    clear -Hall. induction Hall; constructor; [by eapply written_length|done]. }
  rewrite !length_app' in Hfuel. simpl in Hfuel.
  destruct fuel as [|fuel]; [lia|].
  rewrite !app_assoc'. change ("{" +:+ ?x) with (String "{" x).
  change ("}" +:+ r) with (String "}" r).
  destruct Hall as [|[k v] t ms texts (vt & -> & Hvt) Hrest]; [reflexivity|].
  cbn [fst snd] in *.
  assert (JSON.join "," ((JSON.string_text k +:+ ":" +:+ vt) :: texts) +:+ String "}" r
          = String JSON.quote
              (JSON.escape_all k
               +:+ String JSON.quote
                     (match texts with
                      | [] => ":" +:+ vt
                      | _ => (":" +:+ vt) +:+ "," +:+ JSON.join "," texts
                      end +:+ String "}" r))) as Hhead.
  { destruct texts as [|t' texts].
    - change (JSON.join "," [?x]) with x. rewrite !app_assoc', string_text_app.
      reflexivity.
    - rewrite join_cons2. rewrite !app_assoc', string_text_app, ?app_assoc'.
      reflexivity. }
  rewrite Hhead, parse_value_object_eq, object_members, <- Hhead.
  rewrite (members_parse ((k, v) :: ms)); [done| |done|simpl in *; lia].
  constructor; [|done]. by exists vt.
Qed.

Lemma product_parse p fuel r :
  (String.length (JSON.product_text p) ≤ fuel)%nat →
  JSON.parse_value fuel (JSON.product_text p +:+ r) = Some (product_json p, r).
Proof.
  intros Hfuel. unfold JSON.product_text, product_json in *.
  apply object_parse; [|done].
  repeat apply Forall2_app; auto using written_string, written_number.
Qed.

Lemma sale_parse s fuel r :
  (String.length (JSON.sale_text s) ≤ fuel)%nat →
  JSON.parse_value fuel (JSON.sale_text s +:+ r) = Some (sale_json s, r).
Proof.
  intros Hfuel. unfold JSON.sale_text, sale_json in *.
  apply object_parse; [|done].
  repeat apply Forall2_app; auto using written_string, written_number.
Qed.

Lemma object_text_head texts : ∃ X, JSON.object_text texts = String "{" X.
Proof. unfold JSON.object_text. by eexists. Qed.

Section Elements.
Context {A : Type} (text : A → string) (json : A → JSON.value).
Hypothesis text_parse : ∀ a fuel r,
  (String.length (text a) ≤ fuel)%nat →
  JSON.parse_value fuel (text a +:+ r) = Some (json a, r).
Hypothesis text_head : ∀ a, ∃ X, text a = String "{" X.

Lemma text_length a : (1 ≤ String.length (text a))%nat.
Proof. destruct (text_head a) as [X ->]. simpl. lia. Qed.

Lemma elements_parse (l : list A) fuel r :
  l ≠ [] →
  (String.length (JSON.join "," (text <$> l)) + length l ≤ fuel)%nat →
  JSON.parse_elements fuel (JSON.join "," (text <$> l) +:+ String "]" r)
  = Some (json <$> l, r).
Proof.
  revert fuel. induction l as [|a l IH]; [done|]. intros fuel _ Hfuel.
  pose proof (text_length a) as Ha.
  destruct fuel as [|fuel]; [simpl in Hfuel; lia|].
  rewrite parse_elements_eq. destruct l as [|a' l].
  - change (JSON.join "," (text <$> [a])) with (text a) in *.
    rewrite text_parse by (simpl in Hfuel; lia). reflexivity.
  - change (text <$> a :: a' :: l) with (text a :: text a' :: (text <$> l)) in *.
    rewrite join_cons2 in *. rewrite !length_app' in Hfuel. simpl in Hfuel.
    rewrite !app_assoc'. rewrite text_parse by lia.
    change ("," +:+ ?x) with (String "," x).
    change (Some (json a, String "," ?x) ≫= ?f) with (f (json a, String "," x)).
    cbv beta iota.
    change (JSON.skip_ws (String "," ?x)) with (String "," x). cbv iota beta.
    change (text a' :: (text <$> l)) with (text <$> a' :: l).
    rewrite IH; [reflexivity|done|].
    change (text <$> a' :: l) with (text a' :: (text <$> l)). simpl in *. lia.
Qed.

Lemma array_parse (l : list A) :
  JSON.parse (JSON.array_text (text <$> l)) = Normal (JSON.Array (json <$> l)).
Proof.
  unfold JSON.parse, JSON.array_text.
  change ("[" +:+ ?x) with (String "[" x).
  cbn [String.length]. rewrite Nat.mul_succ_r.
  replace (2 * String.length (JSON.join "," (text <$> l) +:+ "]") + 2 + 2)%nat
    with (S (2 * String.length (JSON.join "," (text <$> l) +:+ "]") + 3))%nat by lia.
  rewrite parse_value_array_eq.
  destruct l as [|a l]; [reflexivity|].
  assert (∃ X, JSON.join "," (text <$> a :: l) +:+ "]" = String "{" X) as [X HX].
  { destruct (text_head a) as [X HX]. destruct l as [|a' l].
    - change (JSON.join "," (text <$> [a])) with (text a). rewrite HX. by eexists.
    - change (text <$> a :: a' :: l) with (text a :: text a' :: (text <$> l)).
      rewrite join_cons2, HX. by eexists. }
  rewrite HX at 1. 
  change (JSON.skip_ws (String "{" ?x)) with (String "{" x). cbv iota beta.
  rewrite <- HX.
  assert (length (a :: l) ≤ String.length (JSON.join "," (text <$> a :: l)))%nat as Hlen.
  { rewrite <- (length_fmap text). apply join_length.
    apply Forall_fmap, Forall_forall. intros x _. apply text_length. }
  change "]" with (String "]" "").
  rewrite elements_parse; [reflexivity|done|].
  rewrite length_app'. simpl in *. lia.
Qed.

End Elements.

Lemma stored_text_parses ps ss :
  JSON.parse (JSON.stringify_products ps) = Normal (JSON.Array (product_json <$> ps)) ∧
  JSON.parse (JSON.stringify_sales ss) = Normal (JSON.Array (sale_json <$> ss)).
Proof.
  unfold JSON.stringify_products, JSON.stringify_sales. split.
  - apply (array_parse JSON.product_text product_json).
    + intros. by apply product_parse.
    + intros p. apply object_text_head.
  - apply (array_parse JSON.sale_text sale_json).
    + intros. by apply sale_parse.
    + intros p. apply object_text_head.
Qed.

(** ** Reading the ledger back *)

Lemma get_app key l1 l2 :
  get key (l1 ++ l2) = match get key l2 with Some v => Some v | None => get key l1 end.
Proof.
  induction l1 as [|[k v] l1 IH]; simpl.
  - by destruct (get key l2).
  - rewrite IH. by destruct (get key l2).
Qed.

Lemma get_member {A} (json : A → JSON.value) key k (v : option A) :
  get key (member json k v) = if decide (k = key) then json <$> v else None.
Proof. destruct v; simpl; by case_decide. Qed.

Lemma whole_0 m : whole m 0 = Some (Fin m).
Proof. unfold whole. simpl. by rewrite Z.mul_1_r. Qed.

Ltac read_string v :=
  unfold string_property; rewrite !get_app, !get_member; simpl; by destruct v.

Ltac read_number v :=
  unfold number_property; rewrite !get_app, !get_member; simpl;
  destruct v as [[?|]|]; cbn -[whole]; rewrite ?whole_0; reflexivity.

Lemma product_json_read p :
  product_of_json (product_json p)
  = numBoxes ← read_back (Product.numBoxes p);
    numPieces ← read_back (Product.numPieces p);
    pricePerBox ← read_back (Product.pricePerBox p);
    stock ← read_back (Product.stock p);
    Some (Product.mk (Product.serial p) (Product.type p) (Product.brand p)
            (Product.name p) (Product.size p) numBoxes numPieces pricePerBox stock).
Proof.
  destruct p as [serial type brand name size numBoxes numPieces pricePerBox stock].
  unfold product_of_json, product_json. cbn [Product.serial Product.type Product.brand
    Product.name Product.size Product.numBoxes Product.numPieces Product.pricePerBox
    Product.stock].
  set (ms := _ ++ _).
  assert (string_property "serial" ms = Some serial) as -> by (subst ms; read_string serial).
  assert (string_property "type" ms = Some type) as -> by (subst ms; read_string type).
  assert (string_property "brand" ms = Some brand) as -> by (subst ms; read_string brand).
  assert (string_property "name" ms = Some name) as -> by (subst ms; read_string name).
  assert (string_property "size" ms = Some size) as -> by (subst ms; read_string size).
  assert (number_property "numBoxes" ms = read_back numBoxes) as ->
    by (subst ms; read_number numBoxes).
  assert (number_property "numPieces" ms = read_back numPieces) as ->
    by (subst ms; read_number numPieces).
  assert (number_property "pricePerBox" ms = read_back pricePerBox) as ->
    by (subst ms; read_number pricePerBox).
  assert (number_property "stock" ms = read_back stock) as ->
    by (subst ms; read_number stock).
  done.
Qed.

Lemma sale_json_read s :
  sale_of_json (sale_json s)
  = quantity ← read_back (Sale.quantity s);
    total ← read_back (Sale.total s);
    Some (Sale.mk (Sale.serial s) (Sale.name s) quantity total (Sale.date s) (Sale.type s)).
Proof.
  destruct s as [serial name quantity total date type].
  unfold sale_of_json, sale_json. cbn [Sale.serial Sale.name Sale.quantity Sale.total
    Sale.date Sale.type].
  set (ms := _ ++ _).
  assert (string_property "serial" ms = Some serial) as -> by (subst ms; read_string serial).
  assert (string_property "name" ms = Some name) as -> by (subst ms; read_string name).
  assert (number_property "quantity" ms = read_back quantity) as ->
    by (subst ms; read_number quantity).
  assert (number_property "total" ms = read_back total) as ->
    by (subst ms; read_number total).
  assert (string_property "date" ms = Some date) as -> by (subst ms; read_string date).
  assert (string_property "type" ms = Some type) as -> by (subst ms; read_string type).
  simpl. destruct (read_back quantity); [|done]. simpl. by destruct (read_back total).
Qed.

Lemma read_back_plain v : read_back v = Some v ↔ plain v.
Proof. unfold plain. destruct v as [[z|]|]; simpl; split; congruence. Qed.

Lemma read_back_Some v v' : read_back v = Some v' → v' = v ∧ plain v.
Proof. unfold plain. destruct v as [[z|]|]; simpl; intros [= <-]; split; congruence. Qed.

Lemma product_of_product_json p :
  product_of_json (product_json p) = Some p ↔ plain_product p.
Proof.
  rewrite product_json_read. destruct p as [? ? ? ? ? nb np pr st]. unfold plain_product.
  cbn [Product.serial Product.type Product.brand Product.name Product.size
    Product.numBoxes Product.numPieces Product.pricePerBox Product.stock]. split.
  - intros H.
    destruct (read_back nb) as [nb'|] eqn:H1; [|done].
    destruct (read_back np) as [np'|] eqn:H2; [|done].
    destruct (read_back pr) as [pr'|] eqn:H3; [|done].
    destruct (read_back st) as [st'|] eqn:H4; [|done].
    apply read_back_Some in H1, H2, H3, H4. tauto.
  - intros (H1 & H2 & H3 & H4). apply read_back_plain in H1, H2, H3, H4.
    by rewrite H1, H2, H3, H4.
Qed.

Lemma sale_of_sale_json s :
  sale_of_json (sale_json s) = Some s ↔ plain_sale s.
Proof.
  rewrite sale_json_read. destruct s as [? ? q t ? ?]. unfold plain_sale.
  cbn [Sale.serial Sale.name Sale.quantity Sale.total Sale.date Sale.type]. split.
  - intros H.
    destruct (read_back q) as [q'|] eqn:H1; [|done].
    destruct (read_back t) as [t'|] eqn:H2; [|done].
    apply read_back_Some in H1, H2. tauto.
  - intros (H1 & H2). apply read_back_plain in H1, H2. by rewrite H1, H2.
Qed.

Lemma mapM_fmap_Some {A} (f : JSON.value → option A) (g : A → JSON.value) (l : list A) :
  mapM f (g <$> l) = Some l ↔ Forall (λ a, f (g a) = Some a) l.
Proof.
  rewrite mapM_Some, Forall2_fmap_l. split.
  - intros Hall. apply Forall_lookup. intros i a Ha.
    by apply (Forall2_lookup_lr _ _ _ i a a Hall).
  - intros Hall. apply Forall_Forall2_diag. eapply Forall_impl; [exact Hall|]. by intros a Ha.
Qed.

Lemma products_read ps :
  products_of_json (JSON.Array (product_json <$> ps)) = Some ps ↔ Forall plain_product ps.
Proof.
  unfold products_of_json. rewrite mapM_fmap_Some. apply Forall_proper; [|done].
  intros p. apply product_of_product_json.
Qed.

Lemma sales_read ss :
  sales_of_json (JSON.Array (sale_json <$> ss)) = Some ss ↔ Forall plain_sale ss.
Proof.
  unfold sales_of_json. rewrite mapM_fmap_Some. apply Forall_proper; [|done].
  intros s. apply sale_of_sale_json.
Qed.

Lemma initialize_flushed w :
  flushed w →
  initialize (localStorage w)
  = Normal (JSON.Array (product_json <$> products w), JSON.Array (sale_json <$> sales w)).
Proof.
  intros [Hproducts Hsales].
  destruct (stored_text_parses (products w) (sales w)) as [Hp Hs].
  unfold initialize, load. rewrite Hproducts, Hsales. cbn [default id].
  rewrite Hp, Hs. done.
Qed.

(** X16. Whenever the store holds the text that the two [setItem] calls
    write for the ledger, the two [JSON.parse] calls of the first lines of
    the script raise no exception: they return one array per collection,
    with one object per product or sale, in order, that has a member for
    each property that is present, in the order of the properties, a number
    that is not [NaN] as itself and [NaN] as [null]. *)
Theorem initialize_reads_flush w :
  flushed w →
  initialize (localStorage w)
  = Normal (JSON.Array (product_json <$> products w), JSON.Array (sale_json <$> sales w)).
Proof. apply initialize_flushed. Qed.

Lemma initialize_reads_flush_witness :
  flushed (flush books) ∧
  initialize (localStorage (flush books))
  = Normal (JSON.Array (product_json <$> [T1; S9]),
            JSON.Array (sale_json <$> [soldTile; soldBasin; soldOdd])).
Proof.
  assert (flushed (flush books)) as Hflushed by (split; reflexivity).
  split; [exact Hflushed|]. exact (initialize_reads_flush (flush books) Hflushed).
Defined.

(** X17. Loading what was flushed gives the products back, property by
    property, exactly when no number of a product is [NaN], and the sales
    back exactly when no quantity and no total is [NaN]: a [NaN] is read
    back as [null]. *)
Theorem reload_restores w :
  flushed w →
  ∃ vp vs, initialize (localStorage w) = Normal (vp, vs) ∧
    (products_of_json vp = Some (products w) ↔ Forall plain_product (products w)) ∧
    (sales_of_json vs = Some (sales w) ↔ Forall plain_sale (sales w)).
Proof.
  intros Hflushed. eexists _, _. split; [by apply initialize_flushed|].
  split; [apply products_read|apply sales_read].
Qed.

Lemma reload_restores_witness :
  flushed (flush showroom) ∧
  ∃ vp vs, initialize (localStorage (flush showroom)) = Normal (vp, vs) ∧
    (products_of_json vp = Some [T1; S9] ↔ Forall plain_product [T1; S9]) ∧
    (sales_of_json vs = Some [] ↔ Forall plain_sale []).
Proof.
  assert (flushed (flush showroom)) as Hflushed by (split; reflexivity).
  split; [exact Hflushed|]. exact (reload_restores (flush showroom) Hflushed).
Defined.









(** ** The last call decides what is shown *)

Lemma toggle_toggle a b e : toggle b (toggle a e) = toggle b e.
Proof. by destruct e. Qed.

(** X19. Which sales tab is visible depends on the last [toggleSalesTab]
    only: a call undoes the one before it, and calling it twice is calling
    it once.  After a call a tab is visible exactly when its id is the one
    given, every element that is no tab is as it was, and so is the world
    of the ledger.  The displays of the sections likewise depend on the last
    [showSection] only. *)
Theorem last_call_decides a b s :
  toggleSalesTab b (toggleSalesTab a s) = toggleSalesTab b s ∧
  world (toggleSalesTab b s) = world s ∧
  Forall2 (λ e e', Element.id e' = Element.id e ∧ Element.section e' = Element.section e ∧
             Element.tab e' = Element.tab e ∧
             Element.display e'
             = if Element.tab e
               then (if decide (Element.id e = b) then "block" else "none")
               else Element.display e)
    (elements s) (elements (toggleSalesTab b s)) ∧
  elements (showSection b (showSection a s).1).1 = elements (showSection b s).1.
Proof.
  split_and!.
  - unfold toggleSalesTab. simpl. f_equal. rewrite <- list_fmap_compose.
    apply list_fmap_ext. intros i e _. simpl.
    destruct e as [eid esection [] edisplay]; simpl; [|done]. apply toggle_toggle.
  - done.
  - unfold toggleSalesTab. simpl. apply Forall2_fmap_r, Forall_Forall2_diag.
    apply Forall_forall. intros e _. unfold toggle.
    destruct e as [eid esection [] edisplay]; simpl; [|done]. split_and!; try done.
    case_bool_decide; [by rewrite decide_True|by rewrite decide_False].
  - unfold showSection. cbv zeta. simpl. rewrite <- list_fmap_compose.
    apply list_fmap_ext. intros i e _. simpl.
    destruct e as [eid [] etab edisplay]; simpl; [|done]. apply toggle_toggle.
Qed.
